(** * tarfn.c: tar header decoding and the extraction driver of libdpkg

    A shallow embedding of [src/lib/dpkg/tarfn.c] and the properties of its
    header decoder ([OtoL], [StoC], [get_prefix_name], [DecodeTarHeader]) and
    of its driver loop ([TarExtractor]).

    Conventions of the embedding.
    - A [char] is a [byte]; [byte_val] is its value as an [unsigned char].
    - A pointer into the 512-byte block is the list of bytes from that
      position to the end of the block.  A read that runs off that list is
      undefined behaviour in C and is [None] here.
    - A heap string ([char *]) is the list of its initialised bytes,
      terminator included.
    - [int] is 32 bits wide and wraps ([to_int]); [long] and [size_t] are
      64 bits wide (LP64). *)

From Stdlib Require Import ZArith List Bool Lia.
From Stdlib Require Import Strings.Byte.
From Stdlib Require Import Strings.String.
Import ListNotations.
Local Abbreviation length := List.length.
Local Open Scope Z_scope.

(** ** Characters and machine integers *)

Definition byte_val (c : byte) : Z := Z.of_N (Byte.to_N c).

(** The bytes of a string literal. *)
Definition bytes (s : String.string) : list byte :=
  String.list_byte_of_string s.

Definition NUL : byte := x00.
Definition SPACE : byte := x20.
Definition SLASH : byte := x2f.

Definition is_nul (c : byte) : bool := Byte.eqb c NUL.
Definition is_space (c : byte) : bool := Byte.eqb c SPACE.
Definition is_slash (c : byte) : bool := Byte.eqb c SLASH.

(** An octal digit, ['0'] to ['7']. *)
Definition is_odigit (c : byte) : bool :=
  (48 <=? byte_val c) && (byte_val c <=? 55).

(** Conversion to a 32-bit [int]: reduction modulo 2^32 into
    [-2^31, 2^31). *)
Definition to_int (z : Z) : Z := (z + 2 ^ 31) mod 2 ^ 32 - 2 ^ 31.

(** Conversion to a 64-bit [size_t]. *)
Definition to_size_t (z : Z) : Z := z mod 2 ^ 64.

(** Modelled from the spec: [TARBLKSZ] is declared in [tarfn.h], which is
    not in this file; a block has 512 bytes. *)
Definition TARBLKSZ : Z := 512.

(** ** OtoL: octal ASCII to long *)

(** The first loop of [OtoL], which advances [s] and decrements [size]
    while the byte under [s] is a space: it is not bounded by [size] and
    stops at the first byte that is not a space. *)
Fixpoint skip_spaces (s : list byte) (size : Z) : option (list byte * Z) :=
  match s with
  | [] => None
  | c :: s' => if is_space c then skip_spaces s' (size - 1) else Some (s, size)
  end.

(** The second loop of [OtoL]: while [--size >= 0] and the byte under [s]
    is an octal digit, [n = (n * 010) + (digit - '0')], with [n] an [int]. *)
Fixpoint octal_digits (s : list byte) (size : Z) (n : Z) : option Z :=
  if 0 <=? size - 1 then
    match s with
    | [] => None
    | c :: s' =>
        if is_odigit c
        then octal_digits s' (size - 1) (to_int (n * 8 + (byte_val c - 48)))
        else Some n
    end
  else Some n.

Definition OtoL (s : list byte) (size : Z) : option Z :=
  match skip_spaces s size with
  | None => None
  | Some (s', size') => octal_digits s' size' 0
  end.

(** ** StoC: fixed-width field to C string *)

(** The bytes of [s] before its first NUL. *)
Fixpoint until_nul (s : list byte) : list byte :=
  match s with
  | [] => []
  | c :: s' => if is_nul c then [] else c :: until_nul s'
  end.

(** [strnlen(s, size)] reads at most [size] bytes. *)
Definition strnlen (s : list byte) (size : nat) : nat :=
  length (until_nul (firstn size s)).

(** The returned buffer holds [len] copied bytes and the terminator. *)
Definition StoC (s : list byte) (size : nat) : list byte :=
  firstn (strnlen s size) s ++ [NUL].

(** ** C strings held in memory *)

(** The C string that starts at the head of [s]: the bytes before the first
    NUL; [None] when [s] holds no NUL (the read leaves the object). *)
Fixpoint c_str (s : list byte) : option (list byte) :=
  match s with
  | [] => None
  | c :: s' =>
      if is_nul c then Some []
      else match c_str s' with
           | Some r => Some (c :: r)
           | None => None
           end
  end.

Definition strlen (s : list byte) : option nat :=
  match c_str s with
  | Some r => Some (length r)
  | None => None
  end.

(** [m_strdup]: a fresh buffer with the string and its terminator. *)
Definition m_strdup (s : list byte) : option (list byte) :=
  match c_str s with
  | Some r => Some (r ++ [NUL])
  | None => None
  end.

(** ** The header layout: [struct TarHeader] *)

Module Off.
Definition Name : nat := 0.
Definition Mode : nat := 100.
Definition UserID : nat := 108.
Definition GroupID : nat := 116.
Definition Size : nat := 124.
Definition ModificationTime : nat := 136.
Definition Checksum : nat := 148.
Definition LinkFlag : nat := 156.
Definition LinkName : nat := 157.
Definition MagicNumber : nat := 257.
Definition UserName : nat := 265.
Definition GroupName : nat := 297.
Definition MajorDevice : nat := 329.
Definition MinorDevice : nat := 337.
Definition Prefix : nat := 345.
End Off.

(** [h->Field] as a pointer: the memory from the field to the end of the
    block. *)
Definition at_off (off : nat) (block : list byte) : list byte := skipn off block.

Definition TAR_MAGIC_USTAR : list byte := [x75; x73; x74; x61; x72; x00; x30; x30].
Definition TAR_MAGIC_GNU : list byte := [x75; x73; x74; x61; x72; x20; x20; x00].

Definition bytes_eqb (a b : list byte) : bool :=
  if list_eq_dec Byte.byte_eq_dec a b then true else false.

(** [memcmp(a, b, n) == 0] *)
Definition memcmp0 (a b : list byte) (n : nat) : bool :=
  bytes_eqb (firstn n a) (firstn n b).

(** Modelled from the spec: [enum tar_format], [enum TarFileType] and
    [struct TarInfo] are declared in [tarfn.h], which is not in this file.
    The format is one of legacy, ustar and GNU; the type of an entry is the
    link flag character of the tar format; the entry has the fields that
    [DecodeTarHeader] fills. *)
Inductive tar_format : Set := tar_format_old | tar_format_ustar | tar_format_gnu.

(** [enum TarFileType]: the link flag character. *)
Module Ty.
Definition NormalFile0 : byte := x00.
Definition NormalFile1 : byte := x30.
Definition HardLink : byte := x31.
Definition SymbolicLink : byte := x32.
Definition CharacterDevice : byte := x33.
Definition BlockDevice : byte := x34.
Definition Directory : byte := x35.
Definition FIFO : byte := x36.
Definition GNU_LONGLINK : byte := x4b.
Definition GNU_LONGNAME : byte := x4c.
End Ty.

Record TarInfo : Type := mkTarInfo {
  format : tar_format;
  Type_ : byte;
  Name : list byte;
  Mode : Z;
  Size : Z;
  ModTime : Z;
  Device : Z;
  LinkName : list byte;
  UserID : Z;
  GroupID : Z
}.

Definition set_Name (h : TarInfo) (n : list byte) : TarInfo :=
  mkTarInfo (format h) (Type_ h) n (Mode h) (Size h) (ModTime h) (Device h)
            (LinkName h) (UserID h) (GroupID h).

Definition set_LinkName (h : TarInfo) (l : list byte) : TarInfo :=
  mkTarInfo (format h) (Type_ h) (Name h) (Mode h) (Size h) (ModTime h)
            (Device h) l (UserID h) (GroupID h).

(** ** get_prefix_name *)

(** [strcpy(s, prefix); strcat(s, "/"); strcat(s, name);] *)
Definition get_prefix_name (block : list byte) : list byte :=
  let prefix := StoC (at_off Off.Prefix block) 155 in
  let name := StoC (at_off Off.Name block) 100 in
  until_nul prefix ++ [SLASH] ++ until_nul name ++ [NUL].

(** ** DecodeTarHeader *)

Definition sum_bytes (l : list byte) : Z :=
  fold_left (fun acc c => acc + byte_val c) l 0.

(** The format that the magic number selects. *)
Definition header_format (block : list byte) : tar_format :=
  if memcmp0 (at_off Off.MagicNumber block) TAR_MAGIC_GNU 6 then tar_format_gnu
  else if memcmp0 (at_off Off.MagicNumber block) TAR_MAGIC_USTAR 6
       then tar_format_ustar
       else tar_format_old.

(** Concatenate prefix and name to support ustar style long names:
    [d->format == tar_format_ustar && h->Prefix[0] != 0]. *)
Definition header_name (fmt : tar_format) (block : list byte) : list byte :=
  match fmt, at_off Off.Prefix block with
  | tar_format_ustar, c :: _ =>
      if is_nul c then StoC (at_off Off.Name block) 100
      else get_prefix_name block
  | _, _ => StoC (at_off Off.Name block) 100
  end.

Section Decoder.

(** The identity lookups [getpwnam] and [getgrnam]: the name to the numeric
    id when it is found. *)
Variable getpwnam : list byte -> option Z.
Variable getgrnam : list byte -> option Z.

(** The lookup is made when the first byte of the field is not NUL, and
    reads a C string that starts at the field. *)
Definition lookup_id (lookup : list byte -> option Z) (s : list byte)
  : option (option Z) :=
  match s with
  | [] => None
  | c :: _ =>
      if is_nul c then Some None
      else match c_str s with
           | Some nm => Some (lookup nm)
           | None => None
           end
  end.

Definition DecodeTarHeader (block : list byte) : option (TarInfo * bool) :=
  if negb (Nat.eqb (length block) 512) then None else
  let fmt := header_format block in
  match lookup_id getpwnam (at_off Off.UserName block),
        lookup_id getgrnam (at_off Off.GroupName block) with
  | Some passwd, Some group =>
    let name := header_name fmt block in
    let linkname := StoC (at_off Off.LinkName block) 100 in
    match OtoL (at_off Off.Mode block) 8,
          OtoL (at_off Off.Size block) 12,
          OtoL (at_off Off.ModificationTime block) 12,
          OtoL (at_off Off.MajorDevice block) 8,
          OtoL (at_off Off.MinorDevice block) 8,
          OtoL (at_off Off.Checksum block) 8,
          OtoL (at_off Off.UserID block) 8,
          OtoL (at_off Off.GroupID block) 8,
          at_off Off.LinkFlag block with
    | Some mode, Some size, Some mtime, Some major, Some minor,
      Some checksum, Some uid, Some gid, flag :: _ =>
        let device :=
          Z.lor (Z.shiftl (Z.land major 255) 8) (Z.land minor 255) in
        let uid' := match passwd with Some u => u | None => uid end in
        let gid' := match group with Some g => g | None => gid end in
        let d := mkTarInfo fmt flag name mode (to_size_t size) mtime device
                           linkname uid' gid' in
        (* Treat checksum field as all blank. *)
        let sum := 32 * 8
                   + sum_bytes (firstn Off.Checksum block)
                   + sum_bytes (skipn (Off.Checksum + 8) block) in
        Some (d, sum =? checksum)
    | _, _, _, _, _, _, _, _, _ => None
    end
  | _, _ => None
  end.

End Decoder.

(** ** TarExtractor *)

(** How a run of the C code can end: it returns, it has undefined behaviour
    (a read outside an object), [m_malloc] ends the process, or the model
    ran out of [fuel] (the byte source never ended). *)
Inductive result (A : Type) : Type :=
| Ret (a : A)
| Undefined
| Fatal
| OutOfFuel.

Arguments Ret {A} a.
Arguments Undefined {A}.
Arguments Fatal {A}.
Arguments OutOfFuel {A}.

Definition bind {A B : Type} (m : result A) (k : A -> result B) : result B :=
  match m with
  | Ret a => k a
  | Undefined => Undefined
  | Fatal => Fatal
  | OutOfFuel => OutOfFuel
  end.

Definition of_option {A : Type} (o : option A) : result A :=
  match o with
  | Some a => Ret a
  | None => Undefined
  end.

Notation "x <- m ;; k" := (bind m (fun x => k))
  (at level 61, m at next level, right associativity).
Notation "' p <- m ;; k" := (bind m (fun x => match x with p => k end))
  (at level 61, p pattern, m at next level, right associativity).

(** The external operations that were called, in the order of the calls,
    each with the entry it was given. *)
Inductive call : Type :=
| CallRead
| CallExtract (h : TarInfo)
| CallMkdir (h : TarInfo)
| CallLink (h : TarInfo)
| CallSymlink (h : TarInfo)
| CallMknod (h : TarInfo).

Definition is_symlink_call (c : call) : bool :=
  match c with CallSymlink _ => true | _ => false end.

(** Modelled from the spec: [m_malloc] is not in this file.  It returns a
    freshly allocated buffer of the requested size, or does not return at
    all; a request above [PTRDIFF_MAX] cannot be served. *)
Definition m_malloc_fails (size : Z) : bool := 2 ^ 63 - 1 <? size.

Section Driver.

(** The state behind [ctx]: the byte source and the file system. *)
Variable W : Type.

(** Modelled from the spec: [struct tar_operations] is declared in
    [tarfn.h], which is not in this file.  [read] returns the count and
    the bytes it stored in [buffer]; the others take the entry and return
    their status. *)
Record tar_operations : Type := mk_ops {
  read : W -> Z * list byte * W;
  extract_file : W -> TarInfo -> Z * W;
  link : W -> TarInfo -> Z * W;
  symlink : W -> TarInfo -> Z * W;
  mkdir : W -> TarInfo -> Z * W;
  mknod : W -> TarInfo -> Z * W
}.

Variable getpwnam : list byte -> option Z.
Variable getgrnam : list byte -> option Z.
Variable ops : tar_operations.

(** The variables of [TarExtractor] that live across iterations. *)
Record state : Type := mk_state {
  next_long_name : option (list byte);
  next_long_link : option (list byte);
  symlinks : list TarInfo;
  world : W;
  trace : list call
}.

Definition init (w : W) : state := mk_state None None [] w [].

Definition with_world (st : state) (w : W) (c : call) : state :=
  mk_state (next_long_name st) (next_long_link st) (symlinks st) w
           (trace st ++ [c]).

(** The [tar_func] members of [ops] that the loop calls. *)
Inductive op_kind : Set := OpExtract | OpMkdir | OpLink | OpMknod.

Definition op_fun (k : op_kind) : W -> TarInfo -> Z * W :=
  match k with
  | OpExtract => extract_file ops
  | OpMkdir => mkdir ops
  | OpLink => link ops
  | OpMknod => mknod ops
  end.

Definition op_call (k : op_kind) : TarInfo -> call :=
  match k with
  | OpExtract => CallExtract
  | OpMkdir => CallMkdir
  | OpLink => CallLink
  | OpMknod => CallMknod
  end.

(** [status = ops->op(ctx, &h)] *)
Definition invoke (k : op_kind) (h : TarInfo) (st : state) : Z * state :=
  let '(status, w) := op_fun k (world st) h in
  (status, with_world st w (op_call k h)).

(** [h.Name[nameLength - 1]] *)
Definition last_char (h : TarInfo) (nameLength : nat) : byte :=
  nth (nameLength - 1) (Name h) NUL.

(** [h.Name[nameLength - 1] = '\0'] *)
Definition strip_last (h : TarInfo) (nameLength : nat) : TarInfo :=
  set_Name h (firstn (nameLength - 1) (Name h) ++ NUL :: skipn nameLength (Name h)).

(** [case Directory:] which the regular file cases fall into. *)
Definition do_directory (h : TarInfo) (nameLength : nat) (st : state)
  : Z * state :=
  let h' := if is_slash (last_char h nameLength)
            then strip_last h nameLength else h in
  invoke OpMkdir h' st.

(** The [for] loop that reads the long name: [long_read] bytes are still
    to come, [bp] is what was copied so far, [status] the last status.
    [k] bounds the number of iterations and is never the reason to stop
    when it is at least [long_read]. *)
Fixpoint read_long (k : nat) (long_read : Z) (bp : list byte) (status : Z)
         (w : W) (tr : list call) : result (Z * list byte * W * list call) :=
  if 0 <? long_read then
    match k with
    | O => OutOfFuel
    | S k' =>
        let '(status', buffer, w') := read ops w in
        if negb (status' =? TARBLKSZ) then
          (* Read partial header record? *)
          Ret ((if 0 <? status' then -1 else status'), bp, w', tr ++ [CallRead])
        else if negb (Nat.eqb (length buffer) 512) then Undefined
        else
          let copysize := Z.min long_read TARBLKSZ in
          read_long k' (long_read - TARBLKSZ)
                    (bp ++ firstn (Z.to_nat copysize) buffer) status' w'
                    (tr ++ [CallRead])
    end
  else Ret (status, bp, w, tr).

(** [case GNU_LONGLINK: case GNU_LONGNAME:] *)
Definition do_long (h : TarInfo) (st : state) : result (Z * state) :=
  if m_malloc_fails (Size h) then Fatal else
  let long_read := to_int (Size h) in
  '(status, bp, w, tr) <-
     read_long (Z.to_nat long_read) long_read [] TARBLKSZ (world st) (trace st) ;;
  let st' :=
    if Byte.eqb (Type_ h) Ty.GNU_LONGNAME
    then mk_state (Some bp) (next_long_link st) (symlinks st) w tr
    else mk_state (next_long_name st) (Some bp) (symlinks st) w tr in
  (* In case of error do not overwrite status with 0. *)
  if status <? 0 then Ret (status, st') else Ret (0, st').

(** [case SymbolicLink:] the entry is copied to the tail of the list. *)
Definition do_symlink (h : TarInfo) (st : state) : result (Z * state) :=
  name <- of_option (m_strdup (Name h)) ;;
  linkname <- of_option (m_strdup (LinkName h)) ;;
  let node := set_LinkName (set_Name h name) linkname in
  Ret (0, mk_state (next_long_name st) (next_long_link st)
                   (symlinks st ++ [node]) (world st) (trace st)).

(** [switch (h.Type)] *)
Definition dispatch (h : TarInfo) (nameLength : nat) (st : state)
  : result (Z * state) :=
  let t := Type_ h in
  if Byte.eqb t Ty.NormalFile0 || Byte.eqb t Ty.NormalFile1 then
    (* Compatibility with pre-ANSI ustar. *)
    if negb (is_slash (last_char h nameLength))
    then Ret (invoke OpExtract h st)
    else Ret (do_directory h nameLength st)
  else if Byte.eqb t Ty.Directory then Ret (do_directory h nameLength st)
  else if Byte.eqb t Ty.HardLink then Ret (invoke OpLink h st)
  else if Byte.eqb t Ty.SymbolicLink then do_symlink h st
  else if Byte.eqb t Ty.CharacterDevice || Byte.eqb t Ty.BlockDevice
          || Byte.eqb t Ty.FIFO
  then Ret (invoke OpMknod h st)
  else if Byte.eqb t Ty.GNU_LONGLINK || Byte.eqb t Ty.GNU_LONGNAME
  then do_long h st
  else (* Indicates broken tarfile: Bad header field. *) Ret (-1, st).

(** The pending long name and long link replace the decoded ones, and both
    slots are cleared, unless the entry is itself a long name or link. *)
Definition is_long (h : TarInfo) : bool :=
  Byte.eqb (Type_ h) Ty.GNU_LONGLINK || Byte.eqb (Type_ h) Ty.GNU_LONGNAME.

Definition override (h : TarInfo) (st : state) : TarInfo :=
  let h1 := match next_long_name st with
            | Some n => set_Name h n
            | None => h
            end in
  match next_long_link st with
  | Some l => set_LinkName h1 l
  | None => h1
  end.

Definition clear_pending (st : state) : state :=
  mk_state None None (symlinks st) (world st) (trace st).

(** The first half of the body of the [while] loop, from the header
    [block] just read to the [switch]: either the loop is left with a
    status, or the entry reaches the [switch] with its name length. *)
Inductive prepared : Type :=
| Stop (status : Z) (st : state)
| Entry (h : TarInfo) (nameLength : nat) (st : state).

Definition prepare (block : list byte) (st : state) : result prepared :=
  '(h, ok) <- of_option (DecodeTarHeader getpwnam getgrnam block) ;;
  if negb ok then
    match Name h with
    | [] => Undefined
    | c :: _ =>
        if is_nul c then (* End of tape. *) Ret (Stop 0 st)
        else (* Header checksum error. *) Ret (Stop (-1) st)
    end
  else
    let '(h, st) := if negb (is_long h)
                    then (override h st, clear_pending st) else (h, st) in
    match Name h with
    | [] => Undefined
    | c :: _ =>
        if is_nul c then (* Bad header data. *) Ret (Stop (-1) st)
        else
          nameLength <- of_option (strlen (Name h)) ;;
          Ret (Entry h nameLength st)
    end.

(** What one iteration of the [while] loop does next. *)
Inductive step : Type :=
| Continue (st : state)
| Break (status : Z) (st : state).

(** The body of the [while] loop. *)
Definition loop_body (block : list byte) (st : state) : result step :=
  p <- prepare block st ;;
  match p with
  | Stop status st' => Ret (Break status st')
  | Entry h nameLength st1 =>
      '(status, st') <- dispatch h nameLength st1 ;;
      if negb (status =? 0)
      then (* Pass on status from coroutine. *) Ret (Break status st')
      else Ret (Continue st')
  end.

(** [while ((status = ops->read(ctx, buffer, TARBLKSZ)) == TARBLKSZ)] *)
Fixpoint main_loop (fuel : nat) (st : state) : result (Z * state) :=
  match fuel with
  | O => OutOfFuel
  | S fuel' =>
      let '(status, buffer, w) := read ops (world st) in
      let st := with_world st w CallRead in
      if status =? TARBLKSZ then
        s <- loop_body buffer st ;;
        match s with
        | Continue st' => main_loop fuel' st'
        | Break status' st' => Ret (status', st')
        end
      else Ret (status, st)
  end.

(** [while (symlink_head)]: the deferred symbolic links, in list order. *)
Fixpoint drain (q : list TarInfo) (status : Z) (w : W) (tr : list call)
  : Z * W * list call :=
  match q with
  | [] => (status, w, tr)
  | node :: q' =>
      if status =? 0 then
        let '(status', w') := symlink ops w node in
        drain q' status' w' (tr ++ [CallSymlink node])
      else drain q' status w tr
  end.

(** The last statement: a positive status becomes [-1]. *)
Definition final_status (status : Z) : Z :=
  if 0 <? status then -1 else status.

(** From the loop on: the loop, the drain and the return. *)
Definition extract_from (fuel : nat) (st : state) : result (Z * W * list call) :=
  '(status, st') <- main_loop fuel st ;;
  let '(status', w, tr) := drain (symlinks st') status (world st') (trace st') in
  Ret (final_status status', w, tr).

Definition TarExtractor (fuel : nat) (w : W) : result (Z * W * list call) :=
  extract_from fuel (init w).

End Driver.

Arguments read {W}.
Arguments extract_file {W}.
Arguments link {W}.
Arguments symlink {W}.
Arguments mkdir {W}.
Arguments mknod {W}.
Arguments mk_state {W}.
Arguments next_long_name {W}.
Arguments next_long_link {W}.
Arguments symlinks {W}.
Arguments world {W}.
Arguments trace {W}.
Arguments init {W}.
Arguments with_world {W}.
Arguments clear_pending {W}.
Arguments override {W}.
Arguments Stop {W}.
Arguments Entry {W}.
Arguments Continue {W}.
Arguments Break {W}.

(** * Definitions used to state the properties *)

(** ** Octal fields *)

(** The reading of an octal field as the specification words it: skip the
    leading spaces, take the octal digits up to the first other byte or
    the end of the field, accumulate them in base 8. *)
Fixpoint drop_spaces (f : list byte) : list byte :=
  match f with
  | [] => []
  | c :: f' => if is_space c then drop_spaces f' else f
  end.

Fixpoint take_digits (f : list byte) : list byte :=
  match f with
  | [] => []
  | c :: f' => if is_odigit c then c :: take_digits f' else []
  end.

Definition digit_val (c : byte) : Z := byte_val c - 48.

(** The number that the digits write in base 8. *)
Definition octal_number (ds : list byte) : Z :=
  fold_left (fun n c => n * 8 + digit_val c) ds 0.

(** The same accumulation in an [int] accumulator. *)
Definition octal_int (ds : list byte) : Z :=
  fold_left (fun n c => to_int (n * 8 + digit_val c)) ds 0.

Definition field_digits (f : list byte) : list byte :=
  take_digits (drop_spaces f).

Definition not_space (c : byte) : Prop := is_space c = false.

(** ** The header checksum *)

(** The declared checksum: the 8-byte checksum field read as an octal
    number. *)
Definition checksum_field (block : list byte) : list byte :=
  firstn 8 (skipn Off.Checksum block).

Definition declared_checksum (block : list byte) : Z :=
  octal_number (field_digits (checksum_field block)).

(** The block with each byte of the checksum field replaced by a space,
    and the sum of its bytes as unsigned values. *)
Definition blank_checksum (block : list byte) : list byte :=
  firstn Off.Checksum block ++ repeat SPACE 8 ++ skipn (Off.Checksum + 8) block.

Definition blanked_sum (block : list byte) : Z :=
  fold_right Z.add 0 (map byte_val (blank_checksum block)).

(** ** Names *)

(** The string that a fixed-width field holds: its bytes up to the first
    NUL or to the width of the field. *)
Definition field_string (off n : nat) (block : list byte) : list byte :=
  until_nul (firstn n (skipn off block)).

Definition no_nul (l : list byte) : Prop := Forall (fun c => is_nul c = false) l.

(** ** The trace and the queue of the driver *)

Definition no_symlink_calls (l : list call) : Prop :=
  Forall (fun c => is_symlink_call c = false) l.

(** From [st] to [st'] the trace grew by calls that are no symlink
    creations, and the queue of deferred links grew at its tail. *)
Definition grows {W : Type} (st st' : state W) : Prop :=
  exists l added,
    trace st' = trace st ++ l
    /\ no_symlink_calls l
    /\ symlinks st' = symlinks st ++ added.

Section DriverSpec.

Variable W : Type.
Variable ops : tar_operations W.

Definition prepared_state (p : prepared W) : state W :=
  match p with
  | Stop _ st => st
  | Entry _ _ st => st
  end.

Definition step_state (s : step W) : state W :=
  match s with
  | Continue st => st
  | Break _ st => st
  end.

(** Successive reads from [w] return the full blocks [blocks], and leave
    the world [w']. *)
Fixpoint reads_blocks (w : W) (blocks : list (list byte)) (w' : W) : Prop :=
  match blocks with
  | [] => w' = w
  | b :: bs =>
      exists w1, read ops w = (TARBLKSZ, b, w1) /\ reads_blocks w1 bs w'
  end.

(** The state after a long name or long link marker whose payload was
    read in full. *)
Definition after_marker (h : TarInfo) (buf : list byte) (st : state W)
           (w : W) (n : nat) : state W :=
  if Byte.eqb (Type_ h) Ty.GNU_LONGNAME
  then mk_state (Some buf) (next_long_link st) (symlinks st) w
                (trace st ++ repeat CallRead n)
  else mk_state (next_long_name st) (Some buf) (symlinks st) w
                (trace st ++ repeat CallRead n).

End DriverSpec.

Arguments prepared_state {W}.
Arguments step_state {W}.
Arguments reads_blocks {W}.
Arguments after_marker {W}.

Definition full_blocks (blocks : list (list byte)) : Prop :=
  Forall (fun b : list byte => length b = 512%nat) blocks.

(** The number of blocks that hold a payload of [size] bytes. *)
Definition blocks_for (size : Z) : nat := Z.to_nat ((size + 511) / 512).

(** From [Ret x = Ret (s, st')], replace [st'] by [snd x]. *)
Ltac ret_snd H :=
  match type of H with
  | Ret ?x = Ret (?s, ?st') =>
      let E := fresh "E" in
      assert (E : st' = snd x)
        by (assert (X : x = (s, st')) by congruence; rewrite X; reflexivity);
      clear H; subst st'
  end.

(** ** Example archives *)

(** Header blocks written field by field, used to run the code on
    concrete archives. *)
Module Example.

(** A field of width [n]: the bytes, padded with NUL. *)
Definition pad (n : nat) (l : list byte) : list byte :=
  firstn n (l ++ repeat NUL n).

Definition digit_of (d : Z) : byte :=
  match Byte.of_N (Z.to_N (48 + d mod 8)) with
  | Some c => c
  | None => NUL
  end.

(** [k] octal digits of [n], most significant first. *)
Fixpoint octal (k : nat) (n : Z) : list byte :=
  match k with
  | O => []
  | S k' => octal k' (n / 8) ++ [digit_of n]
  end.

Record fields : Type := mk_fields {
  f_name : list byte;
  f_mode : Z;
  f_size : Z;
  f_type : byte;
  f_linkname : list byte;
  f_magic : list byte;
  f_prefix : list byte
}.

Definition layout (f : fields) (checksum : list byte) : list byte :=
  pad 100 (f_name f)
  ++ pad 8 (octal 7 (f_mode f))
  ++ pad 8 (octal 7 0) ++ pad 8 (octal 7 0)
  ++ pad 12 (octal 11 (f_size f))
  ++ pad 12 (octal 11 0)
  ++ pad 8 checksum
  ++ [f_type f]
  ++ pad 100 (f_linkname f)
  ++ pad 8 (f_magic f)
  ++ pad 32 [] ++ pad 32 []
  ++ pad 8 (octal 7 0) ++ pad 8 (octal 7 0)
  ++ pad 155 (f_prefix f)
  ++ pad 12 [].

(** The block with its checksum filled in. *)
Definition header (f : fields) : list byte :=
  layout f (octal 6 (sum_bytes (layout f (repeat SPACE 8))) ++ [NUL; SPACE]).

(** The same block with a checksum that is off by one. *)
Definition bad_header (f : fields) : list byte :=
  layout f (octal 6 (1 + sum_bytes (layout f (repeat SPACE 8))) ++ [NUL; SPACE]).

Definition entry (t : byte) (name linkname : string) (size : Z) : fields :=
  mk_fields (bytes name) 420 size t (bytes linkname) TAR_MAGIC_GNU [].

Definition ustar_entry (prefix name : list byte) : fields :=
  mk_fields name 420 0 Ty.NormalFile1 [] TAR_MAGIC_USTAR prefix.

(** No user or group name is known. *)
Definition no_id (_ : list byte) : option Z := None.

Definition zero_block : list byte := repeat NUL 512.

End Example.

(** A path of 150 characters, split into a prefix of 100 and a name of
    49. *)
Definition long_prefix : list byte := repeat "a"%byte 100.
Definition long_base : list byte := repeat "b"%byte 49.
Definition long_path : list byte := long_prefix ++ [SLASH] ++ long_base.

(** ** A byte source and operations to run the driver on *)

Module Sim.

(** The world is the list of the results that [read] still has to give;
    at its end [read] returns 0. *)
Definition world : Type := list (Z * list byte).

Definition sim_read (w : world) : Z * list byte * world :=
  match w with
  | [] => (0, [], [])
  | (n, b) :: w' => (n, b, w')
  end.

(** Operations that touch nothing and return a fixed status. *)
Definition const_op (status : Z) (w : world) (_ : TarInfo) : Z * world :=
  (status, w).

(** [extract_file] returns [e] and [symlink] returns [s]; the other
    operations succeed. *)
Definition sim_ops (e s : Z) : tar_operations world :=
  mk_ops world sim_read (const_op e) (const_op 0) (const_op s) (const_op 0)
         (const_op 0).

Definition full (blocks : list (list byte)) : world :=
  map (fun b => (512, b)) blocks.

Definition run (e s : Z) (w : world) : result (Z * world * list call) :=
  TarExtractor world Example.no_id Example.no_id (sim_ops e s)
               (S (length w)) w.

(** The calls of a trace, without the entries they were given: the kind
    of the call and the name, as a C string. *)
Inductive call_name : Type :=
| Read_
| Extract_ (name : option (list byte))
| Mkdir_ (name : option (list byte))
| Link_ (name : option (list byte))
| Symlink_ (name : option (list byte))
| Mknod_ (name : option (list byte)).

Definition name_of (c : call) : call_name :=
  match c with
  | CallRead => Read_
  | CallExtract h => Extract_ (c_str (Name h))
  | CallMkdir h => Mkdir_ (c_str (Name h))
  | CallLink h => Link_ (c_str (Name h))
  | CallSymlink h => Symlink_ (c_str (Name h))
  | CallMknod h => Mknod_ (c_str (Name h))
  end.

Definition summary (r : result (Z * world * list call))
  : result (Z * list call_name) :=
  match r with
  | Ret (status, _, tr) => Ret (status, map name_of tr)
  | Undefined => Undefined
  | Fatal => Fatal
  | OutOfFuel => OutOfFuel
  end.

End Sim.

(** ** Archives to run the driver on *)

Module Archives.

Import Example.

(** A directory, a symbolic link in it, a file whose path goes through
    the link, a second symbolic link, and the end of the archive. *)
Definition deferral : Sim.world :=
  Sim.full [header (entry Ty.Directory "d/" "" 0);
            header (entry Ty.SymbolicLink "d/link" "target" 0);
            header (entry Ty.NormalFile1 "d/link/evil" "" 0);
            header (entry Ty.SymbolicLink "z" "y" 0);
            zero_block].

(** A long name marker of size 6, its payload, and the hard link that
    takes the name. *)
Definition long_marker : list byte :=
  header (entry Ty.GNU_LONGNAME "././@LongLink" "" 6).

Definition long_payload : list byte := pad 512 (bytes "dir/x").

Definition long_real : list byte := header (entry Ty.HardLink "short" "tgt" 0).

Definition long_name : Sim.world :=
  Sim.full [long_marker; long_payload; long_real].

(** The entries that [long_marker] and [long_real] decode to. *)
Definition long_marker_entry : TarInfo :=
  mkTarInfo tar_format_gnu Ty.GNU_LONGNAME (bytes "././@LongLink" ++ [NUL])
            420 6 0 0 [NUL] 0 0.

Definition long_real_entry : TarInfo :=
  mkTarInfo tar_format_gnu Ty.HardLink (bytes "short" ++ [NUL]) 420 0 0 0
            (bytes "tgt" ++ [NUL]) 0 0.

(** A long name marker of size 1, whose payload is a block of zeros: the
    long name is the empty string. *)
Definition empty_long_marker : list byte :=
  header (entry Ty.GNU_LONGNAME "././@LongLink" "" 1).

Definition empty_long_marker_entry : TarInfo :=
  mkTarInfo tar_format_gnu Ty.GNU_LONGNAME (bytes "././@LongLink" ++ [NUL])
            420 1 0 0 [NUL] 0 0.

Definition empty_long_name : Sim.world :=
  Sim.full [empty_long_marker; zero_block; long_real].

(** A long name marker whose own name field is empty, with its payload and
    the entry after it. *)
Definition nameless_marker : list byte :=
  header (entry Ty.GNU_LONGNAME "" "" 6).

Definition nameless_marker_archive : Sim.world :=
  Sim.full [nameless_marker; long_payload; long_real].

(** A long name marker of size 6 and then the end of the stream. *)
Definition long_name_eof : Sim.world := Sim.full [long_marker].

(** A regular file, and a regular file whose name ends in a slash. *)
Definition file_block : list byte := header (entry Ty.NormalFile1 "f" "" 0).

(** The entry that [file_block] decodes to. *)
Definition file_entry : TarInfo :=
  mkTarInfo tar_format_gnu Ty.NormalFile1 (bytes "f" ++ [NUL]) 420 0 0 0
            [NUL] 0 0.

(** A header with a name and a wrong checksum. *)
Definition corrupt_block : list byte := bad_header (entry Ty.NormalFile1 "f" "" 0).

End Archives.

(** ** Definitions for the further properties *)

(** A field of the block: [n] bytes from offset [off]. *)
Definition hfield (off n : nat) (block : list byte) : list byte :=
  firstn n (skipn off block).

(** The octal number written in a field. *)
Definition field_octal (off n : nat) (block : list byte) : Z :=
  octal_number (field_digits (hfield off n block)).

(** A comparison of two closed numbers of type [nat]. *)
Ltac nat_cmp :=
  first [ apply Nat.ltb_lt; reflexivity | apply Nat.leb_le; reflexivity ].

(** The link flags that the [switch] of [TarExtractor] has a case for. *)
Definition known_type (t : byte) : bool :=
  existsb (Byte.eqb t)
          [Ty.NormalFile0; Ty.NormalFile1; Ty.Directory; Ty.HardLink;
           Ty.SymbolicLink; Ty.CharacterDevice; Ty.BlockDevice; Ty.FIFO;
           Ty.GNU_LONGLINK; Ty.GNU_LONGNAME].

Section DrainSpec.

Variable W : Type.
Variable ops : tar_operations W.

(** The symlink creation succeeds on each node of [q] in turn, from the
    world [w] to the world [w']. *)
Fixpoint symlinks_ok (w : W) (q : list TarInfo) (w' : W) : Prop :=
  match q with
  | [] => w' = w
  | node :: q' =>
      exists w1, symlink ops w node = (0, w1) /\ symlinks_ok w1 q' w'
  end.

End DrainSpec.

Arguments symlinks_ok {W}.

(** Further blocks and archives to run the code on. *)
Module More.

Import Example.

(** A header whose name field is empty, with a valid checksum. *)
Definition nameless_block : list byte := header (entry Ty.NormalFile1 "" "" 0).

(** A header with a link flag that the driver does not know. *)
Definition strange_block : list byte := header (entry "x"%byte "odd" "" 0).

Definition link_block : list byte := header (entry Ty.HardLink "l" "f" 0).
Definition fifo_block : list byte := header (entry Ty.FIFO "p" "" 0).
Definition symlink_block : list byte :=
  header (entry Ty.SymbolicLink "s" "target" 0).

(** A GNU header with a prefix field that is not empty. *)
Definition gnu_prefix_block : list byte :=
  header (mk_fields (bytes "name") 420 0 Ty.NormalFile1 [] TAR_MAGIC_GNU
                    (bytes "prefix")).

(** A header with a user name and a group name. *)
Definition owned_layout (checksum : list byte) : list byte :=
  pad 100 (bytes "f")
  ++ pad 8 (octal 7 420)
  ++ pad 8 (octal 7 1000) ++ pad 8 (octal 7 100)
  ++ pad 12 (octal 11 0)
  ++ pad 12 (octal 11 0)
  ++ pad 8 checksum
  ++ [Ty.NormalFile1]
  ++ pad 100 []
  ++ pad 8 TAR_MAGIC_USTAR
  ++ pad 32 (bytes "root") ++ pad 32 (bytes "wheel")
  ++ pad 8 (octal 7 259) ++ pad 8 (octal 7 7)
  ++ pad 155 []
  ++ pad 12 [].

Definition owned_block : list byte :=
  owned_layout (octal 6 (sum_bytes (owned_layout (repeat SPACE 8)))
                ++ [NUL; SPACE]).

(** A header whose modification time is 2^31. *)
Definition late_layout (checksum : list byte) : list byte :=
  pad 100 (bytes "f")
  ++ pad 8 (octal 7 420)
  ++ pad 8 (octal 7 0) ++ pad 8 (octal 7 0)
  ++ pad 12 (octal 11 0)
  ++ pad 12 (octal 11 (2 ^ 31))
  ++ pad 8 checksum
  ++ [Ty.NormalFile1]
  ++ pad 100 []
  ++ pad 8 TAR_MAGIC_USTAR
  ++ pad 32 [] ++ pad 32 []
  ++ pad 8 (octal 7 0) ++ pad 8 (octal 7 0)
  ++ pad 155 []
  ++ pad 12 [].

Definition late_block : list byte :=
  late_layout (octal 6 (sum_bytes (late_layout (repeat SPACE 8)))
               ++ [NUL; SPACE]).

(** Only [root] is a known user, and no group is known. *)
Definition root_only (name : list byte) : option Z :=
  if bytes_eqb name (bytes "root") then Some 0 else None.

End More.

(** * Properties *)

(** ** The octal parser *)

Lemma skip_spaces_all (f rest : list byte) (size : Z) :
  drop_spaces f = [] ->
  skip_spaces (f ++ rest) size = skip_spaces rest (size - Z.of_nat (length f)).
Proof.
  revert size. induction f as [|c f IH]; intros size Hd; simpl.
  - f_equal. lia.
  - simpl in Hd. destruct (is_space c); [|discriminate].
    rewrite IH by assumption. f_equal. lia.
Qed.

Lemma skip_spaces_some (f rest : list byte) (size : Z) :
  drop_spaces f <> [] ->
  skip_spaces (f ++ rest) size
  = Some (drop_spaces f ++ rest,
          size - Z.of_nat (length f) + Z.of_nat (length (drop_spaces f))).
Proof.
  revert size. induction f as [|c f IH]; intros size Hd; simpl in *.
  - congruence.
  - destruct (is_space c) eqn:E.
    + rewrite IH by assumption. do 2 f_equal. lia.
    + simpl. do 2 f_equal. lia.
Qed.

Lemma skip_spaces_le (s : list byte) (size : Z) :
  Exists not_space s ->
  exists s' size', skip_spaces s size = Some (s', size') /\ size' <= size.
Proof.
  intros H. revert size. induction H as [c s Hc | c s _ IH]; intros size; simpl.
  - rewrite Hc. eexists _, _. split; [reflexivity | lia].
  - destruct (is_space c).
    + destruct (IH (size - 1)) as (s' & size' & E & L).
      exists s', size'. split; [assumption | lia].
    + eexists _, _. split; [reflexivity | lia].
Qed.

Lemma octal_digits_stop (s : list byte) (size n : Z) :
  size <= 0 -> octal_digits s size n = Some n.
Proof.
  intros H. destruct s; simpl; destruct (0 <=? size - 1) eqn:E;
    try reflexivity; apply Z.leb_le in E; lia.
Qed.

Lemma octal_digits_app (f rest : list byte) (n : Z) :
  octal_digits (f ++ rest) (Z.of_nat (length f)) n
  = Some (fold_left (fun n c => to_int (n * 8 + digit_val c)) (take_digits f) n).
Proof.
  revert n. induction f as [|c f IH]; intros n.
  - apply octal_digits_stop. simpl. lia.
  - cbn [app length octal_digits take_digits].
    replace (0 <=? Z.of_nat (S (length f)) - 1) with true
      by (symmetry; apply Z.leb_le; lia).
    destruct (is_odigit c); [|reflexivity].
    replace (Z.of_nat (S (length f)) - 1) with (Z.of_nat (length f)) by lia.
    rewrite IH. reflexivity.
Qed.

Lemma Exists_app_not_nil (f rest : list byte) :
  Exists not_space (f ++ rest) -> drop_spaces f = [] -> Exists not_space rest.
Proof.
  induction f as [|c f IH]; simpl; intros H Hd; [assumption|].
  destruct (is_space c) eqn:E; [|discriminate].
  inversion H; subst; [unfold not_space in *; congruence | auto].
Qed.

(** [OtoL] on a field of any width, whatever follows the field in memory:
    the result is the [int] accumulation of the digits of the field. *)
Lemma OtoL_field (f rest : list byte) :
  Exists not_space (f ++ rest) ->
  OtoL (f ++ rest) (Z.of_nat (length f)) = Some (octal_int (field_digits f)).
Proof.
  intros H. unfold OtoL, field_digits.
  destruct (drop_spaces f) as [|c f'] eqn:Hd.
  - rewrite skip_spaces_all by assumption.
    destruct (skip_spaces_le rest (Z.of_nat (length f) - Z.of_nat (length f)))
      as (s' & size' & E & L); [eapply Exists_app_not_nil; eassumption|].
    rewrite E. apply octal_digits_stop. lia.
  - rewrite skip_spaces_some by congruence. rewrite Hd.
    replace (Z.of_nat (length f) - Z.of_nat (length f)
             + Z.of_nat (length (c :: f')))
      with (Z.of_nat (length (c :: f'))) by lia.
    apply octal_digits_app.
Qed.

Lemma take_digits_Forall (f : list byte) :
  Forall (fun c => is_odigit c = true) (take_digits f).
Proof.
  induction f as [|c f IH]; simpl; [constructor|].
  destruct (is_odigit c) eqn:E; constructor; assumption.
Qed.

Lemma digit_val_range (c : byte) : is_odigit c = true -> 0 <= digit_val c <= 7.
Proof.
  unfold is_odigit, digit_val. intros H.
  apply andb_true_iff in H. destruct H as [A B].
  apply Z.leb_le in A. apply Z.leb_le in B. lia.
Qed.

Lemma to_int_small (z : Z) : - 2 ^ 31 <= z < 2 ^ 31 -> to_int z = z.
Proof.
  intros H. unfold to_int. rewrite Z.mod_small; lia.
Qed.

(** With at most ten digits the [int] accumulator does not wrap. *)
Lemma octal_int_exact_gen (ds : list byte) (n : Z) (k : nat) :
  Forall (fun c => is_odigit c = true) ds ->
  0 <= n < 8 ^ Z.of_nat k -> (k + length ds <= 10)%nat ->
  fold_left (fun n c => to_int (n * 8 + digit_val c)) ds n
  = fold_left (fun n c => n * 8 + digit_val c) ds n.
Proof.
  intros HF. revert n k. induction HF as [|c ds Hc HF IH]; intros n k Hn Hk.
  - reflexivity.
  - simpl in *. pose proof (digit_val_range c Hc) as Hd.
    assert (Hp : 8 ^ Z.of_nat (S k) = 8 * 8 ^ Z.of_nat k)
      by (rewrite Nat2Z.inj_succ, Z.pow_succ_r; lia).
    assert (Hb : 8 ^ Z.of_nat (S k) <= 8 ^ 10)
      by (apply Z.pow_le_mono_r; lia).
    rewrite to_int_small by (change (8 ^ 10) with 1073741824 in Hb; lia).
    apply (IH _ (S k)); lia.
Qed.

Lemma octal_int_exact (ds : list byte) :
  Forall (fun c => is_odigit c = true) ds -> (length ds <= 10)%nat ->
  octal_int ds = octal_number ds.
Proof.
  intros HF HL. apply (octal_int_exact_gen ds 0 0 HF); simpl; lia.
Qed.

(** C9.  On a field [f] of any width, followed in memory by any bytes
    [rest] (with a byte that is not a space somewhere at or after the
    field, so that the scan for the first non-space byte stays inside
    the block), [OtoL] skips the leading spaces of the field, then
    accumulates the octal digits up to the first byte that is no octal
    digit or the end of the field, and returns the accumulated [int];
    with at most ten digits, as in every 8-byte field, that is the number
    the digits write in base 8.  The field [0000007 ] gives 7, an
    all-space field gives 0, and a NUL after the digits ends the scan. *)
Theorem OtoL_octal_field :
  (forall f rest : list byte,
      Exists not_space (f ++ rest) ->
      OtoL (f ++ rest) (Z.of_nat (length f)) = Some (octal_int (field_digits f))
      /\ ((length (field_digits f) <= 10)%nat ->
          octal_int (field_digits f) = octal_number (field_digits f)))
  /\ (forall rest, OtoL (bytes "0000007 "%string ++ rest) 8 = Some 7)
  /\ (forall rest, Exists not_space rest ->
                   OtoL (repeat SPACE 8 ++ rest) 8 = Some 0)
  /\ (forall rest, OtoL (bytes "0000644"%string ++ NUL :: rest) 8 = Some 420).
Proof.
  split; [|split; [|split]].
  - intros f rest H. split.
    + apply OtoL_field; assumption.
    + intros HL. apply octal_int_exact; [apply take_digits_Forall | assumption].
  - intros rest. reflexivity.
  - intros rest H.
    apply (OtoL_field (repeat SPACE 8) rest).
    apply Exists_app. right. assumption.
  - intros rest. reflexivity.
Qed.

Lemma OtoL_octal_field_witness :
  OtoL (bytes "     17 "%string ++ bytes "x"%string) 8 = Some 15
  /\ OtoL (repeat SPACE 8 ++ [NUL]) 8 = Some 0.
Proof.
  split.
  - destruct (proj1 OtoL_octal_field (bytes "     17 "%string) (bytes "x"%string)) as [E X].
    + apply Exists_exists. exists "1"%byte.
      split; [vm_compute; auto 10 | reflexivity].
    + rewrite X in E; [exact E | vm_compute; lia].
  - apply (proj1 (proj2 (proj2 OtoL_octal_field))).
    apply Exists_cons_hd. reflexivity.
Defined.

(** ** The header checksum *)

Lemma sum_bytes_from (l : list byte) (a : Z) :
  fold_left (fun acc c => acc + byte_val c) l a
  = a + fold_right Z.add 0 (map byte_val l).
Proof.
  revert a. induction l as [|c l IH]; intros a; simpl; [lia|].
  rewrite IH. lia.
Qed.

Lemma sum_bytes_spec (l : list byte) :
  sum_bytes l = fold_right Z.add 0 (map byte_val l).
Proof. unfold sum_bytes. rewrite sum_bytes_from. lia. Qed.

Lemma sum_app (l1 l2 : list Z) :
  fold_right Z.add 0 (l1 ++ l2) = fold_right Z.add 0 l1 + fold_right Z.add 0 l2.
Proof. induction l1 as [|x l1 IH]; simpl; lia. Qed.

Lemma blanked_sum_code (block : list byte) :
  32 * 8 + sum_bytes (firstn Off.Checksum block)
  + sum_bytes (skipn (Off.Checksum + 8) block)
  = blanked_sum block.
Proof.
  unfold blanked_sum, blank_checksum.
  rewrite !map_app, !sum_app, !sum_bytes_spec.
  change (fold_right Z.add 0 (map byte_val (repeat SPACE 8))) with 256. lia.
Qed.

Lemma skip_spaces_Exists (s : list byte) (size : Z) (r : list byte * Z) :
  skip_spaces s size = Some r -> Exists not_space s.
Proof.
  revert size. induction s as [|c s IH]; intros size; simpl; [discriminate|].
  destruct (is_space c) eqn:E.
  - intros H. apply Exists_cons_tl. eapply IH; eassumption.
  - intros _. apply Exists_cons_hd. exact E.
Qed.

Lemma OtoL_Exists (s : list byte) (size v : Z) :
  OtoL s size = Some v -> Exists not_space s.
Proof.
  unfold OtoL. destruct (skip_spaces s size) as [r|] eqn:E; [|discriminate].
  intros _. eapply skip_spaces_Exists; eassumption.
Qed.

(** A field of the block and what follows it. *)
Lemma at_off_field (off n : nat) (block : list byte) :
  at_off off block = firstn n (skipn off block) ++ skipn (off + n) block.
Proof.
  unfold at_off. rewrite <- (firstn_skipn n (skipn off block)) at 1.
  rewrite skipn_skipn. f_equal. f_equal. lia.
Qed.

Lemma field_length (off n : nat) (block : list byte) :
  (off + n <= length block)%nat -> length (firstn n (skipn off block)) = n.
Proof.
  intros H. rewrite length_firstn, length_skipn. lia.
Qed.

(** What [OtoL] returns on a field of the block. *)
Lemma OtoL_at_off (off n : nat) (block : list byte) (v : Z) :
  (off + n <= length block)%nat ->
  OtoL (at_off off block) (Z.of_nat n) = Some v ->
  v = octal_int (field_digits (firstn n (skipn off block))).
Proof.
  intros HL H. pose proof (OtoL_Exists _ _ _ H) as HE.
  rewrite (at_off_field off n) in H, HE.
  pose proof (OtoL_field _ _ HE) as X.
  rewrite (field_length off n block HL) in X. congruence.
Qed.

Lemma field_digits_length (f : list byte) :
  (length (field_digits f) <= length f)%nat.
Proof.
  unfold field_digits.
  assert (A : forall l, (length (take_digits l) <= length l)%nat).
  { induction l as [|c l IH]; simpl; [lia|]. destruct (is_odigit c); simpl; lia. }
  assert (B : forall l, (length (drop_spaces l) <= length l)%nat).
  { induction l as [|c l IH]; simpl; [lia|]. destruct (is_space c); simpl; lia. }
  specialize (A (drop_spaces f)). specialize (B f). lia.
Qed.

Section DecoderFacts.

Variable getpwnam : list byte -> option Z.
Variable getgrnam : list byte -> option Z.

Local Abbreviation decode := (DecodeTarHeader getpwnam getgrnam).

Lemma decode_length (block : list byte) (r : TarInfo * bool) :
  decode block = Some r -> length block = 512%nat.
Proof.
  unfold DecodeTarHeader.
  destruct (Nat.eqb (length block) 512) eqn:E; simpl; [|discriminate].
  intros _. apply Nat.eqb_eq. exact E.
Qed.

(** What a successful decoding says of the entry and of the flag. *)
Lemma decode_inv (block : list byte) (d : TarInfo) (ok : bool) :
  decode block = Some (d, ok) ->
  exists size checksum flag rest,
    OtoL (at_off Off.Size block) 12 = Some size
    /\ OtoL (at_off Off.Checksum block) 8 = Some checksum
    /\ at_off Off.LinkFlag block = flag :: rest
    /\ format d = header_format block
    /\ Name d = header_name (header_format block) block
    /\ LinkName d = StoC (at_off Off.LinkName block) 100
    /\ Type_ d = flag
    /\ Size d = to_size_t size
    /\ ok = (blanked_sum block =? checksum).
Proof.
  intros H. unfold DecodeTarHeader in H.
  destruct (negb (Nat.eqb (length block) 512)); [discriminate|].
  destruct (lookup_id getpwnam _); [|discriminate].
  destruct (lookup_id getgrnam _); [|discriminate].
  destruct (OtoL (at_off Off.Mode block) 8); [|discriminate].
  destruct (OtoL (at_off Off.Size block) 12) as [size|]; [|discriminate].
  destruct (OtoL (at_off Off.ModificationTime block) 12); [|discriminate].
  destruct (OtoL (at_off Off.MajorDevice block) 8); [|discriminate].
  destruct (OtoL (at_off Off.MinorDevice block) 8); [|discriminate].
  destruct (OtoL (at_off Off.Checksum block) 8) as [checksum|]; [|discriminate].
  destruct (OtoL (at_off Off.UserID block) 8); [|discriminate].
  destruct (OtoL (at_off Off.GroupID block) 8); [|discriminate].
  destruct (at_off Off.LinkFlag block) as [|flag rest]; [discriminate|].
  injection H as Hd Hok. exists size, checksum, flag, rest.
  subst d. cbn [format Name LinkName Type_ Size].
  repeat (split; [reflexivity|]).
  rewrite <- (blanked_sum_code block). symmetry. exact Hok.
Qed.

(** C2.  For every 512-byte block that [DecodeTarHeader] decodes, the
    validity result is true if and only if the octal value of the 8-byte
    checksum field equals the sum of the 512 bytes, as unsigned values,
    of the block in which the 8 bytes of the checksum field are replaced
    by spaces. *)
Theorem DecodeTarHeader_checksum (block : list byte) (d : TarInfo) (ok : bool) :
  decode block = Some (d, ok) ->
  length block = 512%nat
  /\ (ok = true <-> declared_checksum block = blanked_sum block).
Proof.
  intros H. pose proof (decode_length _ _ H) as HL. split; [exact HL|].
  destruct (decode_inv _ _ _ H)
    as (size & checksum & flag & rest & _ & Hc & _ & _ & _ & _ & _ & _ & Hok).
  apply (OtoL_at_off Off.Checksum 8) in Hc; [|rewrite HL; simpl; lia].
  rewrite octal_int_exact in Hc.
  - fold (checksum_field block) in Hc. fold (declared_checksum block) in Hc.
    subst ok checksum. rewrite Z.eqb_eq. split; congruence.
  - apply take_digits_Forall.
  - pose proof (field_digits_length (firstn 8 (skipn Off.Checksum block))) as L.
    rewrite length_firstn in L. lia.
Qed.

End DecoderFacts.

Example header_decodes :
  option_map snd (DecodeTarHeader Example.no_id Example.no_id
                    (Example.header (Example.entry Ty.NormalFile1 "hello" "" 5)))
  = Some true.
Proof. vm_compute. reflexivity. Qed.

Lemma DecodeTarHeader_checksum_witness :
  declared_checksum (Example.header (Example.entry Ty.Directory "d/" "" 0))
  = blanked_sum (Example.header (Example.entry Ty.Directory "d/" "" 0)).
Proof.
  edestruct (DecodeTarHeader_checksum Example.no_id Example.no_id
               (Example.header (Example.entry Ty.Directory "d/" "" 0)))
    as [_ [X _]]; [vm_compute; reflexivity | apply X; reflexivity].
Defined.

(** ** Names *)

Lemma until_nul_no_nul (l : list byte) : no_nul (until_nul l).
Proof.
  induction l as [|c l IH]; simpl; [constructor|].
  destruct (is_nul c) eqn:E; constructor; assumption.
Qed.

Lemma until_nul_app_nul (l rest : list byte) :
  no_nul l -> until_nul (l ++ NUL :: rest) = l.
Proof.
  induction 1 as [|c l Hc _ IH]; simpl; [reflexivity|].
  rewrite Hc, IH. reflexivity.
Qed.

Lemma until_nul_id (l : list byte) : no_nul l -> until_nul l = l.
Proof.
  induction 1 as [|c l Hc _ IH]; simpl; [reflexivity|].
  rewrite Hc, IH. reflexivity.
Qed.

Lemma c_str_app_nul (l rest : list byte) :
  no_nul l -> c_str (l ++ NUL :: rest) = Some l.
Proof.
  induction 1 as [|c l Hc _ IH]; simpl; [reflexivity|].
  rewrite Hc, IH. reflexivity.
Qed.

Lemma c_str_until_nul (s r : list byte) : c_str s = Some r -> r = until_nul s.
Proof.
  revert r. induction s as [|c s IH]; intros r; simpl; [discriminate|].
  destruct (is_nul c); [congruence|].
  destruct (c_str s) as [r'|]; [|discriminate].
  intros H. injection H as <-. f_equal. apply IH. reflexivity.
Qed.

Lemma firstn_until_nul (n : nat) (s : list byte) :
  firstn (length (until_nul (firstn n s))) s = until_nul (firstn n s).
Proof.
  revert s. induction n as [|n IH]; intros s; [reflexivity|].
  destruct s as [|c s]; [reflexivity|]. simpl.
  destruct (is_nul c); [reflexivity|]. simpl. rewrite IH. reflexivity.
Qed.

(** [StoC] returns the string of the field and its terminator. *)
Lemma StoC_spec (s : list byte) (n : nat) :
  StoC s n = until_nul (firstn n s) ++ [NUL].
Proof. unfold StoC, strnlen. rewrite firstn_until_nul. reflexivity. Qed.

Lemma until_nul_StoC (s : list byte) (n : nat) :
  until_nul (StoC s n) = until_nul (firstn n s).
Proof. rewrite StoC_spec. apply until_nul_app_nul, until_nul_no_nul. Qed.

Lemma no_nul_app (a b : list byte) : no_nul a -> no_nul b -> no_nul (a ++ b).
Proof. intros A B. apply Forall_app. split; assumption. Qed.

Lemma get_prefix_name_spec (block : list byte) :
  get_prefix_name block
  = (field_string Off.Prefix 155 block ++ [SLASH]
     ++ field_string Off.Name 100 block) ++ [NUL].
Proof.
  unfold get_prefix_name, field_string, at_off. rewrite !until_nul_StoC.
  rewrite <- !app_assoc. reflexivity.
Qed.

Lemma pad_string (n : nat) (l : list byte) :
  no_nul l -> (length l <= n)%nat -> until_nul (Example.pad n l) = l.
Proof.
  intros H HL. unfold Example.pad.
  destruct (Nat.eq_dec (length l) n) as [E|E].
  - rewrite firstn_app, <- E, firstn_all, Nat.sub_diag. simpl.
    rewrite app_nil_r. apply until_nul_id. assumption.
  - rewrite firstn_app, firstn_all2 by lia.
    destruct (n - length l)%nat as [|k] eqn:K; [lia|].
    destruct n as [|n]; [lia|]. simpl.
    apply until_nul_app_nul. assumption.
Qed.

Section DecoderNames.

Variable getpwnam : list byte -> option Z.
Variable getgrnam : list byte -> option Z.

Local Abbreviation decode := (DecodeTarHeader getpwnam getgrnam).

(** C7.  When the format decodes as ustar and the prefix field is not
    empty, the decoded name is the string of the prefix field, one ['/'],
    the string of the name field (and the terminator).  Hence a path
    stored as a prefix [p] and a name [n], with [p] not empty, in fields of
    155 and 100 bytes, is decoded as [p/n]: the 150-character path of the
    round trip is an instance. *)
Theorem DecodeTarHeader_ustar_name (block : list byte) (d : TarInfo) (ok : bool) :
  decode block = Some (d, ok) ->
  format d = tar_format_ustar ->
  field_string Off.Prefix 155 block <> [] ->
  c_str (Name d)
  = Some (field_string Off.Prefix 155 block ++ [SLASH]
          ++ field_string Off.Name 100 block)
  /\ forall p n : list byte,
      no_nul p -> no_nul n -> (length p <= 155)%nat -> (length n <= 100)%nat ->
      firstn 155 (skipn Off.Prefix block) = Example.pad 155 p ->
      firstn 100 (skipn Off.Name block) = Example.pad 100 n ->
      c_str (Name d) = Some (p ++ [SLASH] ++ n).
Proof.
  intros H Hf Hp.
  destruct (decode_inv _ _ _ _ _ H)
    as (size & checksum & flag & rest & _ & _ & _ & Ef & En & _).
  assert (E : c_str (Name d)
              = Some (field_string Off.Prefix 155 block ++ [SLASH]
                      ++ field_string Off.Name 100 block)).
  { rewrite En, <- Ef, Hf. unfold header_name.
    unfold field_string in Hp. unfold at_off.
    destruct (skipn Off.Prefix block) as [|c t] eqn:Es; [contradiction|].
    simpl in Hp. destruct (is_nul c); [contradiction|].
    rewrite get_prefix_name_spec. rewrite c_str_app_nul.
    - unfold field_string. rewrite Es. reflexivity.
    - apply no_nul_app; [apply until_nul_no_nul|].
      apply no_nul_app; [|apply until_nul_no_nul].
      constructor; [reflexivity | constructor]. }
  split; [exact E|].
  intros p n Np Nn Lp Ln Fp Fn. rewrite E. unfold field_string.
  rewrite Fp, Fn, !pad_string by assumption. reflexivity.
Qed.

End DecoderNames.

Lemma DecodeTarHeader_ustar_name_witness :
  length long_path = 150%nat
  /\ exists d ok,
      DecodeTarHeader Example.no_id Example.no_id
        (Example.header (Example.ustar_entry long_prefix long_base))
      = Some (d, ok)
      /\ ok = true
      /\ c_str (Name d) = Some long_path.
Proof.
  split; [reflexivity|].
  eexists _, _. split; [vm_compute; reflexivity|]. split; [reflexivity|].
  refine (proj2 (DecodeTarHeader_ustar_name Example.no_id Example.no_id
                   (Example.header (Example.ustar_entry long_prefix long_base))
                   _ true _ _ _) long_prefix long_base _ _ _ _ _ _).
  - vm_compute. reflexivity.
  - reflexivity.
  - vm_compute. discriminate.
  - repeat constructor.
  - repeat constructor.
  - vm_compute. lia.
  - vm_compute. lia.
  - vm_compute. reflexivity.
  - vm_compute. reflexivity.
Defined.

(** ** The trace and the queue of the driver *)

Lemma grows_refl {W : Type} (st : state W) : grows st st.
Proof.
  exists [], []. rewrite !app_nil_r. repeat split. constructor.
Qed.

Lemma grows_trans {W : Type} (a b c : state W) :
  grows a b -> grows b c -> grows a c.
Proof.
  intros (l1 & q1 & T1 & N1 & Q1) (l2 & q2 & T2 & N2 & Q2).
  exists (l1 ++ l2), (q1 ++ q2). rewrite T2, T1, Q2, Q1, !app_assoc.
  repeat split. apply Forall_app. split; assumption.
Qed.

Section DriverFacts.

Variable W : Type.
Variable getpwnam : list byte -> option Z.
Variable getgrnam : list byte -> option Z.
Variable ops : tar_operations W.

Local Abbreviation invoke' := (invoke W ops).
Local Abbreviation read_long' := (read_long W ops).
Local Abbreviation do_long' := (do_long W ops).
Local Abbreviation dispatch' := (dispatch W ops).
Local Abbreviation prepare' := (prepare W getpwnam getgrnam).
Local Abbreviation loop_body' := (loop_body W getpwnam getgrnam ops).
Local Abbreviation main_loop' := (main_loop W getpwnam getgrnam ops).
Local Abbreviation drain' := (drain W ops).
Local Abbreviation extract_from' := (extract_from W getpwnam getgrnam ops).
Local Abbreviation TarExtractor' := (TarExtractor W getpwnam getgrnam ops).

Lemma op_call_no_symlink (k : op_kind) (h : TarInfo) :
  is_symlink_call (op_call k h) = false.
Proof. destruct k; reflexivity. Qed.

Lemma with_world_grows (st : state W) (w : W) (c : call) :
  is_symlink_call c = false -> grows st (with_world st w c).
Proof.
  intros H. exists [c], []. simpl. rewrite app_nil_r.
  repeat split. constructor; [assumption | constructor].
Qed.

Lemma invoke_eq (k : op_kind) (h : TarInfo) (st : state W) :
  invoke' k h st
  = (fst (op_fun W ops k (world st) h),
     with_world st (snd (op_fun W ops k (world st) h)) (op_call k h)).
Proof. unfold invoke. destruct (op_fun W ops k (world st) h). reflexivity. Qed.

Lemma invoke_grows (k : op_kind) (h : TarInfo) (st : state W) :
  grows st (snd (invoke' k h st)).
Proof.
  rewrite invoke_eq. simpl. apply with_world_grows, op_call_no_symlink.
Qed.

Lemma invoke_queue (k : op_kind) (h : TarInfo) (st : state W) :
  symlinks (snd (invoke' k h st)) = symlinks st.
Proof. rewrite invoke_eq. reflexivity. Qed.

Lemma read_long_trace (k : nat) (long_read : Z) (bp : list byte) (status : Z)
      (w : W) (tr : list call) r :
  read_long' k long_read bp status w tr = Ret r ->
  exists l, snd r = tr ++ l /\ no_symlink_calls l.
Proof.
  revert long_read bp status w tr.
  induction k as [|k IH]; intros long_read bp status w tr; simpl.
  - destruct (0 <? long_read); [discriminate|].
    intros H. injection H as <-. exists []. simpl. rewrite app_nil_r.
    split; [reflexivity | constructor].
  - destruct (0 <? long_read).
    + destruct (read ops w) as [[status' buffer] w'].
      destruct (negb (status' =? TARBLKSZ)).
      * intros H. injection H as <-. exists [CallRead]. simpl.
        split; [reflexivity | repeat constructor].
      * destruct (negb (Nat.eqb (length buffer) 512)); [discriminate|].
        intros H. apply IH in H. destruct H as (l & E & N).
        exists (CallRead :: l). rewrite E, <- app_assoc. simpl.
        split; [reflexivity | constructor; [reflexivity | assumption]].
    + intros H. injection H as <-. exists []. simpl. rewrite app_nil_r.
      split; [reflexivity | constructor].
Qed.

(** The bound given to [read_long] is never what stops it. *)
Lemma read_long_fuel (k : nat) (long_read : Z) (bp : list byte) (status : Z)
      (w : W) (tr : list call) :
  (Z.to_nat long_read <= k)%nat ->
  read_long' k long_read bp status w tr <> OutOfFuel.
Proof.
  revert long_read bp status w tr.
  induction k as [|k IH]; intros long_read bp status w tr L; simpl.
  - destruct (0 <? long_read) eqn:E; [|discriminate].
    apply Z.ltb_lt in E. lia.
  - destruct (0 <? long_read); [|discriminate].
    destruct (read ops w) as [[status' buffer] w'].
    destruct (negb (status' =? TARBLKSZ)); [discriminate|].
    destruct (negb (Nat.eqb (length buffer) 512)); [discriminate|].
    apply IH. unfold TARBLKSZ. lia.
Qed.

Lemma do_long_grows (h : TarInfo) (st : state W) (s : Z) (st' : state W) :
  do_long' h st = Ret (s, st') -> grows st st' /\ symlinks st' = symlinks st.
Proof.
  unfold do_long. destruct (m_malloc_fails (Size h)); [discriminate|].
  destruct (read_long' _ _ _ _ _ _) as [[[[status bp] w] tr]| | |] eqn:E;
    simpl; try discriminate.
  apply read_long_trace in E. destruct E as (l & E & N). simpl in E.
  intros H.
  assert (G : forall x : state W,
             trace x = tr -> symlinks x = symlinks st ->
             grows st x /\ symlinks x = symlinks st).
  { intros x T Q. split; [|assumption]. exists l, [].
    rewrite T, Q, app_nil_r. repeat split; assumption. }
  destruct (Byte.eqb (Type_ h) Ty.GNU_LONGNAME);
    destruct (status <? 0); injection H as _ <-; apply G; reflexivity.
Qed.

Lemma do_symlink_queue (h : TarInfo) (st : state W) (s : Z) (st' : state W) :
  do_symlink W h st = Ret (s, st') ->
  s = 0 /\ trace st' = trace st /\ world st' = world st
  /\ exists name linkname,
      m_strdup (Name h) = Some name /\ m_strdup (LinkName h) = Some linkname
      /\ symlinks st' = symlinks st ++ [set_LinkName (set_Name h name) linkname].
Proof.
  unfold do_symlink.
  destruct (m_strdup (Name h)) as [name|]; simpl; [|discriminate].
  destruct (m_strdup (LinkName h)) as [linkname|]; simpl; [|discriminate].
  intros H. injection H as <- <-. simpl. repeat split.
  exists name, linkname. repeat split.
Qed.

Lemma do_directory_grows (h : TarInfo) (n : nat) (st : state W) :
  grows st (snd (do_directory W ops h n st))
  /\ symlinks (snd (do_directory W ops h n st)) = symlinks st.
Proof.
  unfold do_directory. split; [apply invoke_grows | apply invoke_queue].
Qed.

(** The [switch] appends at most one node to the queue, and calls no
    symlink creation. *)
Lemma dispatch_grows (h : TarInfo) (n : nat) (st : state W) (s : Z)
      (st' : state W) :
  dispatch' h n st = Ret (s, st') ->
  grows st st'
  /\ (symlinks st' = symlinks st
      \/ exists node, symlinks st' = symlinks st ++ [node]).
Proof.
  unfold dispatch.
  repeat match goal with
         | |- context [if ?b then _ else _] => destruct b
         end;
    intros H;
    try (ret_snd H;
         first [ split; [apply invoke_grows | left; apply invoke_queue]
               | split; [apply do_directory_grows
                        | left; apply do_directory_grows]
               | split; [apply grows_refl | left; reflexivity] ]).
  - apply do_symlink_queue in H.
    destruct H as (_ & T & _ & name & linkname & _ & _ & Q).
    split; [|right; eexists; exact Q].
    exists [], [set_LinkName (set_Name h name) linkname].
    rewrite T, app_nil_r.
    split; [reflexivity | split; [constructor | exact Q]].
  - apply do_long_grows in H. destruct H as [G Q].
    split; [exact G | left; exact Q].
Qed.

(** Up to the [switch] the iteration only clears the pending slots. *)
Lemma prepare_state (block : list byte) (st : state W) (p : prepared W) :
  prepare' block st = Ret p ->
  prepared_state p = st \/ prepared_state p = clear_pending st.
Proof.
  unfold prepare.
  destruct (DecodeTarHeader getpwnam getgrnam block) as [[h ok]|]; simpl;
    [|discriminate].
  destruct ok; simpl.
  - destruct (is_long h); simpl.
    + destruct (Name h) as [|c t]; [discriminate|].
      destruct (is_nul c); [intros H; injection H as <-; left; reflexivity|].
      destruct (strlen (c :: t)); simpl; [|discriminate].
      intros H; injection H as <-; left; reflexivity.
    + destruct (Name (override h st)) as [|c t]; [discriminate|].
      destruct (is_nul c); [intros H; injection H as <-; right; reflexivity|].
      destruct (strlen (c :: t)); simpl; [|discriminate].
      intros H; injection H as <-; right; reflexivity.
  - destruct (Name h) as [|c t]; [discriminate|].
    destruct (is_nul c); intros H; injection H as <-; left; reflexivity.
Qed.

Lemma prepare_grows (block : list byte) (st : state W) (p : prepared W) :
  prepare' block st = Ret p ->
  trace (prepared_state p) = trace st
  /\ symlinks (prepared_state p) = symlinks st
  /\ world (prepared_state p) = world st.
Proof.
  intros H. destruct (prepare_state _ _ _ H) as [E|E]; rewrite E;
    repeat split.
Qed.

(** One iteration calls no symlink creation and appends at most one node
    to the queue. *)
Lemma loop_body_grows (block : list byte) (st : state W) (s : step W) :
  loop_body' block st = Ret s ->
  grows st (step_state s)
  /\ (symlinks (step_state s) = symlinks st
      \/ exists node, symlinks (step_state s) = symlinks st ++ [node]).
Proof.
  unfold loop_body.
  destruct (prepare' block st) as [p| | |] eqn:P; simpl; try discriminate.
  apply prepare_grows in P. destruct P as (T & Q & _).
  assert (G : grows st (prepared_state p)).
  { exists [], []. rewrite T, Q, !app_nil_r. repeat split. constructor. }
  destruct p as [status st1 | h n st1]; simpl in *.
  - intros H. injection H as <-. simpl. split; [exact G | left; exact Q].
  - destruct (dispatch' h n st1) as [[status st2]| | |] eqn:D; simpl;
      try discriminate.
    apply dispatch_grows in D. destruct D as [G2 Q2]. rewrite Q in Q2.
    destruct (negb (status =? 0)); intros H; injection H as <-; simpl;
      (split; [eapply grows_trans; eassumption | exact Q2]).
Qed.

(** The queue after the [switch]: it is as before, or the entry is a
    symbolic link and its copy is the new last node. *)
Lemma dispatch_queue (h : TarInfo) (n : nat) (st : state W) (s : Z)
      (st' : state W) :
  dispatch' h n st = Ret (s, st') ->
  symlinks st' = symlinks st
  \/ (Type_ h = Ty.SymbolicLink
      /\ exists name linkname,
          m_strdup (Name h) = Some name
          /\ m_strdup (LinkName h) = Some linkname
          /\ symlinks st'
             = symlinks st ++ [set_LinkName (set_Name h name) linkname]).
Proof.
  destruct (Byte.eqb (Type_ h) Ty.SymbolicLink) eqn:E.
  - apply Byte.byte_dec_bl in E. unfold dispatch. rewrite E. simpl.
    intros H. apply do_symlink_queue in H.
    destruct H as (_ & _ & _ & name & linkname & A & B & Q).
    right. split; [reflexivity|]. exists name, linkname. auto.
  - unfold dispatch. rewrite E.
    repeat match goal with
           | |- context [if ?b then _ else _] => destruct b
           end;
      intros H; left;
      first [ ret_snd H;
              first [ apply invoke_queue | apply do_directory_grows
                    | reflexivity ]
            | apply do_long_grows in H; apply H ].
Qed.

Lemma loop_body_queue (block : list byte) (st : state W) (s : step W) :
  loop_body' block st = Ret s ->
  symlinks (step_state s) = symlinks st
  \/ exists h len st1 name linkname,
      prepare' block st = Ret (Entry h len st1)
      /\ Type_ h = Ty.SymbolicLink
      /\ m_strdup (Name h) = Some name
      /\ m_strdup (LinkName h) = Some linkname
      /\ symlinks (step_state s)
         = symlinks st ++ [set_LinkName (set_Name h name) linkname].
Proof.
  unfold loop_body.
  destruct (prepare' block st) as [p| | |] eqn:P; simpl; try discriminate.
  pose proof (prepare_grows _ _ _ P) as (_ & Q & _).
  destruct p as [status st1 | h n st1]; simpl in *.
  - intros H. injection H as <-. left. exact Q.
  - destruct (dispatch' h n st1) as [[status st2]| | |] eqn:D; simpl;
      try discriminate.
    apply dispatch_queue in D. rewrite Q in D.
    assert (X : symlinks st2 = symlinks st
                \/ exists h0 len st0 name linkname,
                    Ret (Entry h n st1) = Ret (Entry h0 len st0)
                    /\ Type_ h0 = Ty.SymbolicLink
                    /\ m_strdup (Name h0) = Some name
                    /\ m_strdup (LinkName h0) = Some linkname
                    /\ symlinks st2
                       = symlinks st
                         ++ [set_LinkName (set_Name h0 name) linkname]).
    { destruct D as [D | (T & name & linkname & A & B & D)]; [left; exact D|].
      right. exists h, n, st1, name, linkname. auto. }
    destruct (negb (status =? 0)); intros H; injection H as <-; exact X.
Qed.

Lemma main_loop_grows (fuel : nat) (st : state W) (status : Z) (st' : state W) :
  main_loop' fuel st = Ret (status, st') -> grows st st'.
Proof.
  revert st. induction fuel as [|fuel IH]; intros st; simpl; [discriminate|].
  destruct (read ops (world st)) as [[n buffer] w].
  assert (G : grows st (with_world st w CallRead))
    by (apply with_world_grows; reflexivity).
  destruct (n =? TARBLKSZ).
  - destruct (loop_body' buffer (with_world st w CallRead)) as [s| | |] eqn:B;
      simpl; try discriminate.
    apply loop_body_grows in B. destruct B as [G2 _].
    destruct s as [st2 | status2 st2]; simpl in *.
    + intros H. apply IH in H. eauto using grows_trans.
    + intros H. injection H as _ <-. eauto using grows_trans.
  - intros H. injection H as _ <-. exact G.
Qed.

(** The drain calls the symlink creation on the queued nodes in list
    order, up to the first failure, and not at all after a failure of the
    loop. *)
Lemma drain_spec (q : list TarInfo) (status : Z) (w : W) (tr : list call) :
  exists k : nat,
    snd (drain' q status w tr) = tr ++ map CallSymlink (firstn k q)
    /\ (k <= length q)%nat
    /\ (status <> 0 -> k = 0%nat /\ fst (fst (drain' q status w tr)) = status
                       /\ snd (fst (drain' q status w tr)) = w)
    /\ (status = 0 ->
        k = length q \/ fst (fst (drain' q status w tr)) <> 0).
Proof.
  revert status w tr. induction q as [|node q IH]; intros status w tr.
  - exists 0%nat. simpl. rewrite app_nil_r.
    split; [reflexivity | split; [lia | split]].
    + intros _. repeat split.
    + intros _. left. reflexivity.
  - simpl. destruct (status =? 0) eqn:E.
    + apply Z.eqb_eq in E. subst status.
      destruct (symlink ops w node) as [status' w'].
      destruct (IH status' w' (tr ++ [CallSymlink node]))
        as (k & T & L & F & S0).
      destruct (Z.eq_dec status' 0) as [Z0|NZ].
      * exists (S k). simpl. rewrite T, <- app_assoc. simpl.
        split; [reflexivity | split; [lia | split]].
        -- intros N. congruence.
        -- intros _. destruct (S0 Z0) as [K|K];
             [left; congruence | right; exact K].
      * destruct (F NZ) as (K & FS & _). subst k.
        exists 1%nat. simpl. rewrite T. simpl. rewrite app_nil_r.
        split; [reflexivity | split; [lia | split]].
        -- intros N. congruence.
        -- intros _. right. rewrite FS. exact NZ.
    + apply Z.eqb_neq in E.
      destruct (IH status w tr) as (k & T & L & F & S0).
      destruct (F E) as (K & FS & FW). subst k.
      exists 0%nat. simpl. rewrite T. simpl.
      split; [reflexivity | split; [lia | split]].
      * intros _. repeat split; assumption.
      * intros N. congruence.
Qed.

Lemma final_status_le (status : Z) : final_status status <= 0.
Proof. unfold final_status. destruct (0 <? status) eqn:E; [lia|]. apply Z.ltb_ge in E. lia. Qed.

Lemma final_status_zero (status : Z) : final_status status = 0 <-> status = 0.
Proof.
  unfold final_status. destruct (0 <? status) eqn:E.
  - apply Z.ltb_lt in E. lia.
  - tauto.
Qed.

(** One iteration of the [while] loop, from the result of its [read]. *)
Lemma main_loop_step (fuel : nat) (st : state W) (n : Z) (buffer : list byte)
      (w1 : W) :
  read ops (world st) = (n, buffer, w1) ->
  main_loop' (S fuel) st
  = if n =? TARBLKSZ then
      s <- loop_body' buffer (with_world st w1 CallRead) ;;
      match s with
      | Continue st' => main_loop' fuel st'
      | Break status' st' => Ret (status', st')
      end
    else Ret (n, with_world st w1 CallRead).
Proof. intros H. simpl. rewrite H. reflexivity. Qed.

(** What [TarExtractor] returns, from the end of the loop. *)
Lemma extract_from_inv (fuel : nat) (st : state W) (status : Z) (w' : W)
      (tr : list call) :
  extract_from' fuel st = Ret (status, w', tr) ->
  exists s0 st',
    main_loop' fuel st = Ret (s0, st')
    /\ status = final_status (fst (fst (drain' (symlinks st') s0 (world st') (trace st'))))
    /\ w' = snd (fst (drain' (symlinks st') s0 (world st') (trace st')))
    /\ tr = snd (drain' (symlinks st') s0 (world st') (trace st')).
Proof.
  unfold extract_from.
  destruct (main_loop' fuel st) as [[s0 st']| | |]; simpl; try discriminate.
  intros H. exists s0, st'. split; [reflexivity|].
  destruct (drain' (symlinks st') s0 (world st') (trace st')) as [[s1 w1] tr1].
  injection H as <- <- <-. repeat split.
Qed.

Lemma extract_from_break (fuel : nat) (st : state W) (s0 : Z) (st' : state W) :
  main_loop' fuel st = Ret (s0, st') -> s0 <> 0 ->
  extract_from' fuel st = Ret (final_status s0, world st', trace st').
Proof.
  intros H N. unfold extract_from. rewrite H. simpl.
  destruct (drain_spec (symlinks st') s0 (world st') (trace st'))
    as (k & T & _ & F & _).
  destruct (F N) as (K & FS & FW). subst k. simpl in T. rewrite app_nil_r in T.
  destruct (drain' _ _ _ _) as [[s1 w1] tr1]. simpl in *. congruence.
Qed.

(** C10.  [TarExtractor] never returns a positive value: what it returns
    is 0 or negative, and a positive count from the read of a header
    block (a short read, or any count other than the block size) is
    returned as -1. *)
Theorem TarExtractor_never_positive :
  (forall (fuel : nat) (w : W) (status : Z) (w' : W) (tr : list call),
      TarExtractor' fuel w = Ret (status, w', tr) -> status <= 0)
  /\ (forall (fuel : nat) (w : W) (n : Z) (buffer : list byte) (w1 : W),
         read ops w = (n, buffer, w1) -> 0 < n -> n <> TARBLKSZ ->
         TarExtractor' (S fuel) w = Ret (-1, w1, [CallRead])).
Proof.
  split.
  - intros fuel w status w' tr H.
    apply extract_from_inv in H. destruct H as (s0 & st' & _ & -> & _).
    apply final_status_le.
  - intros fuel w n buffer w1 R P N.
    unfold TarExtractor.
    assert (M : main_loop' (S fuel) (init w)
                = Ret (n, with_world (init w) w1 CallRead)).
    { rewrite (main_loop_step fuel (init w) n buffer w1 R).
      destruct (n =? TARBLKSZ) eqn:E; [apply Z.eqb_eq in E; contradiction|].
      reflexivity. }
    rewrite (extract_from_break _ _ _ _ M) by lia.
    unfold final_status. destruct (0 <? n) eqn:E; [reflexivity|].
    apply Z.ltb_ge in E. lia.
Qed.

(** C1.  In every run of [TarExtractor] that returns, the trace of the
    external calls is the trace of the main pass, in which there is no
    symlink creation, followed by the symlink creations of the drain.
    These are made on the queued nodes in the order of the queue, and
    an iteration of the main pass leaves the queue as it is or, for an
    entry that is a symbolic link, puts the copy of that entry at its
    tail: the queue is in archive order.  When the main pass ended with
    status 0 the calls reach the end of the queue unless one of them
    fails, and there is none when it ended with a failure. *)
Theorem symlinks_after_main_pass :
  (forall (fuel : nat) (w : W) (status : Z) (w' : W) (tr : list call),
      TarExtractor' fuel w = Ret (status, w', tr) ->
      exists (s0 : Z) (st : state W) (k : nat),
        main_loop' fuel (init w) = Ret (s0, st)
        /\ no_symlink_calls (trace st)
        /\ tr = trace st ++ map CallSymlink (firstn k (symlinks st))
        /\ (s0 = 0 -> k = length (symlinks st) \/ status <> 0)
        /\ (s0 <> 0 -> k = 0%nat))
  /\ (forall (block : list byte) (st : state W) (s : step W),
         loop_body' block st = Ret s ->
         symlinks (step_state s) = symlinks st
         \/ exists h len st1 name linkname,
             prepare' block st = Ret (Entry h len st1)
             /\ Type_ h = Ty.SymbolicLink
             /\ m_strdup (Name h) = Some name
             /\ m_strdup (LinkName h) = Some linkname
             /\ symlinks (step_state s)
                = symlinks st ++ [set_LinkName (set_Name h name) linkname]).
Proof.
  split.
  - intros fuel w status w' tr H.
    apply extract_from_inv in H. destruct H as (s0 & st & M & S1 & _ & T).
    destruct (drain_spec (symlinks st) s0 (world st) (trace st))
      as (k & T' & _ & F & S0).
    exists s0, st, k. split; [exact M|].
    split.
    { apply main_loop_grows in M. destruct M as (l & added & E & N & _).
      simpl in E. rewrite E. exact N. }
    split; [congruence|]. split.
    + intros Z0. destruct (S0 Z0) as [K|K]; [left; exact K|].
      right. rewrite S1. intros X. apply K. apply final_status_zero. exact X.
    + intros N. apply (F N).
  - intros block st s H. apply (loop_body_queue _ _ _ H).
Qed.

Lemma header_name_cons (fmt : tar_format) (block : list byte) :
  exists c t, header_name fmt block = c :: t.
Proof.
  assert (A : forall l : list byte, exists c t, l ++ [NUL] = c :: t).
  { intros [|c t]; simpl; eauto. }
  unfold header_name.
  destruct fmt; try (rewrite StoC_spec; apply A).
  destruct (at_off Off.Prefix block) as [|c t]; [rewrite StoC_spec; apply A|].
  destruct (is_nul c); [rewrite StoC_spec; apply A|].
  rewrite get_prefix_name_spec. apply A.
Qed.

Lemma c_str_empty (c : byte) (t : list byte) :
  c_str (c :: t) = Some [] <-> is_nul c = true.
Proof.
  simpl. destruct (is_nul c); [tauto|].
  destruct (c_str t); split; discriminate.
Qed.

(** The iteration on a header whose checksum is not valid. *)
Lemma prepare_bad_checksum (block : list byte) (st : state W) (d : TarInfo) :
  DecodeTarHeader getpwnam getgrnam block = Some (d, false) ->
  (c_str (Name d) = Some [] -> prepare' block st = Ret (Stop 0 st))
  /\ (c_str (Name d) <> Some [] -> prepare' block st = Ret (Stop (-1) st)).
Proof.
  intros H. unfold prepare. rewrite H. simpl.
  destruct (decode_inv _ _ _ _ _ H)
    as (size & checksum & flag & rest & _ & _ & _ & _ & En & _).
  destruct (header_name_cons (header_format block) block) as (c & t & E).
  rewrite En, E. rewrite c_str_empty.
  destruct (is_nul c); split; intros X; congruence.
Qed.

(** C3.  When the header just read fails the checksum: if the decoded
    name is empty the loop is left at once with status 0, no further
    block is read, and [TarExtractor] goes on to the drain (it returns 0
    when no symbolic link is queued); if the name is not empty the loop is
    left with -1, which [TarExtractor] returns.  A block of 512 zero
    bytes fails the checksum with an empty name. *)
Theorem bad_checksum_ends_loop :
  (forall (fuel : nat) (st : state W) (buffer : list byte) (w1 : W)
          (d : TarInfo),
      read ops (world st) = (TARBLKSZ, buffer, w1) ->
      DecodeTarHeader getpwnam getgrnam buffer = Some (d, false) ->
      (c_str (Name d) = Some [] ->
       main_loop' (S fuel) st = Ret (0, with_world st w1 CallRead)
       /\ extract_from' (S fuel) st
          = (let '(s, w, tr) :=
               drain' (symlinks st) 0 w1 (trace st ++ [CallRead]) in
             Ret (final_status s, w, tr))
       /\ (symlinks st = [] ->
           extract_from' (S fuel) st = Ret (0, w1, trace st ++ [CallRead])))
      /\ (c_str (Name d) <> Some [] ->
          main_loop' (S fuel) st = Ret (-1, with_world st w1 CallRead)
          /\ extract_from' (S fuel) st = Ret (-1, w1, trace st ++ [CallRead])))
  /\ (exists d0,
         DecodeTarHeader getpwnam getgrnam Example.zero_block = Some (d0, false)
         /\ c_str (Name d0) = Some []).
Proof.
  split.
  - intros fuel st buffer w1 d R D.
    destruct (prepare_bad_checksum buffer (with_world st w1 CallRead) d D)
      as [P0 P1].
    split; intros X.
    + assert (M : main_loop' (S fuel) st = Ret (0, with_world st w1 CallRead)).
      { rewrite (main_loop_step fuel st _ _ _ R). simpl.
        unfold loop_body. rewrite (P0 X). reflexivity. }
      split; [exact M|]. unfold extract_from. rewrite M. simpl.
      split; [reflexivity|]. intros Q. rewrite Q. reflexivity.
    + assert (M : main_loop' (S fuel) st = Ret (-1, with_world st w1 CallRead)).
      { rewrite (main_loop_step fuel st _ _ _ R). simpl.
        unfold loop_body. rewrite (P1 X). reflexivity. }
      split; [exact M|].
      rewrite (extract_from_break _ _ _ _ M) by lia. reflexivity.
  - eexists. split; vm_compute; reflexivity.
Qed.

(** C6, as amended.  When an operation called from the [switch] returns
    a status [s] other than 0, the loop is left at once with [s], the
    drain calls no symlink creation, and [TarExtractor] returns [s] when
    it is negative and -1 when it is positive. *)
Theorem op_failure_propagates (fuel : nat) (st : state W) (buffer : list byte)
        (w1 : W) (h : TarInfo) (len : nat) (st1 : state W) (k : op_kind)
        (h' : TarInfo) (s : Z) (w2 : W) :
  read ops (world st) = (TARBLKSZ, buffer, w1) ->
  prepare' buffer (with_world st w1 CallRead) = Ret (Entry h len st1) ->
  dispatch' h len st1 = Ret (invoke' k h' st1) ->
  op_fun W ops k (world st1) h' = (s, w2) ->
  s <> 0 ->
  main_loop' (S fuel) st = Ret (s, with_world st1 w2 (op_call k h'))
  /\ extract_from' (S fuel) st
     = Ret ((if 0 <? s then -1 else s), w2, trace st1 ++ [op_call k h']).
Proof.
  intros R P D O N.
  assert (M : main_loop' (S fuel) st
              = Ret (s, with_world st1 w2 (op_call k h'))).
  { rewrite (main_loop_step fuel st _ _ _ R). simpl.
    unfold loop_body. rewrite P. simpl. rewrite D. simpl.
    rewrite invoke_eq, O. simpl.
    destruct (s =? 0) eqn:E; [apply Z.eqb_eq in E; contradiction|].
    reflexivity. }
  split; [exact M|].
  rewrite (extract_from_break _ _ _ _ M N). reflexivity.
Qed.

(** ** The entry that reaches the [switch] *)

Lemma c_str_split (s r : list byte) :
  c_str s = Some r -> no_nul r /\ exists rest, s = r ++ NUL :: rest.
Proof.
  revert r. induction s as [|c s IH]; intros r; simpl; [discriminate|].
  destruct (is_nul c) eqn:E.
  - intros H. injection H as <-. split; [constructor|].
    exists s. apply Byte.byte_dec_bl in E. subst c. reflexivity.
  - destruct (c_str s) as [r'|]; [|discriminate].
    intros H. injection H as <-.
    destruct (IH r' eq_refl) as (N & rest & ->).
    split; [constructor; assumption | exists rest; reflexivity].
Qed.










(** ** Long names and long links *)

Lemma blocks_for_zero (size : Z) : blocks_for size = 0%nat -> size <= 0.
Proof.
  unfold blocks_for. intros H.
  assert (A : (size + 511) / 512 <= 0) by lia.
  destruct (Z_le_gt_dec size 0) as [L|G]; [exact L|].
  assert (1 <= (size + 511) / 512) by (apply Z.div_le_lower_bound; lia). lia.
Qed.

Lemma blocks_for_succ (size : Z) (n : nat) :
  blocks_for size = S n -> 0 < size /\ blocks_for (size - 512) = n.
Proof.
  unfold blocks_for. intros H.
  replace (size - 512 + 511) with (size + 511 + (-1) * 512) by lia.
  rewrite Z.div_add by lia. split; [|lia].
  destruct (Z_le_gt_dec size 0) as [L|G]; [|lia].
  assert ((size + 511) / 512 <= 0); [|lia].
  assert ((size + 511) / 512 < 1); [|lia].
  apply Z.div_lt_upper_bound; lia.
Qed.

Lemma firstn_block (n : Z) (b rest : list byte) :
  length b = 512%nat -> 0 < n ->
  firstn (Z.to_nat n) (b ++ rest)
  = firstn (Z.to_nat (Z.min n TARBLKSZ)) b ++ firstn (Z.to_nat (n - TARBLKSZ)) rest.
Proof.
  intros L P. unfold TARBLKSZ. rewrite firstn_app, L. f_equal.
  - destruct (Z_le_gt_dec n 512).
    + rewrite Z.min_l by lia. reflexivity.
    + rewrite Z.min_r by lia. rewrite !firstn_all2 by lia. reflexivity.
  - f_equal. lia.
Qed.

(** The [for] loop on a payload that is all there: the buffer receives
    the first [long_read] bytes of the blocks. *)
Lemma read_long_full (payload : list (list byte)) :
  forall (k : nat) (long_read : Z) (bp : list byte) (w : W) (tr : list call)
         (w2 : W),
    reads_blocks ops w payload w2 -> full_blocks payload ->
    length payload = blocks_for long_read ->
    (Z.to_nat long_read <= k)%nat ->
    read_long' k long_read bp TARBLKSZ w tr
    = Ret (TARBLKSZ, bp ++ firstn (Z.to_nat long_read) (List.concat payload), w2,
           tr ++ repeat CallRead (length payload)).
Proof.
  induction payload as [|b ps IH]; intros k long_read bp w tr w2 R F L K.
  - simpl in R. subst w2. symmetry in L. apply blocks_for_zero in L.
    assert (E : (0 <? long_read) = false) by (apply Z.ltb_ge; lia).
    destruct k; simpl; rewrite E, firstn_nil, !app_nil_r; reflexivity.
  - simpl in R. destruct R as (w1 & R1 & R).
    inversion F as [|? ? Lb F']; subst.
    simpl in L. symmetry in L. apply blocks_for_succ in L. destruct L as [P L].
    destruct k as [|k]; [lia|].
    cbn [read_long]. replace (0 <? long_read) with true
      by (symmetry; apply Z.ltb_lt; exact P).
    rewrite R1. rewrite Z.eqb_refl, Lb. cbn [negb Nat.eqb].
    change (Nat.eqb 512 512) with true. cbn [negb].
    rewrite (IH k (long_read - TARBLKSZ) _ w1 _ w2 R F');
      [|symmetry; exact L | unfold TARBLKSZ; lia].
    cbn [List.concat]. rewrite (firstn_block long_read b (List.concat ps) Lb P).
    rewrite <- !app_assoc. reflexivity.
Qed.

Lemma to_int_id (z : Z) : 0 <= z < 2 ^ 31 -> to_int z = z.
Proof. intros H. apply to_int_small. lia. Qed.

Lemma do_long_full (h : TarInfo) (st : state W) (payload : list (list byte))
      (w2 : W) :
  0 <= Size h < 2 ^ 31 ->
  reads_blocks ops (world st) payload w2 -> full_blocks payload ->
  length payload = blocks_for (Size h) ->
  do_long' h st
  = Ret (0, after_marker h (firstn (Z.to_nat (Size h)) (List.concat payload))
                         st w2 (length payload)).
Proof.
  intros B R F L. unfold do_long.
  replace (m_malloc_fails (Size h)) with false
    by (symmetry; apply Z.ltb_ge; lia).
  rewrite (to_int_id _ B).
  rewrite (read_long_full payload _ _ _ _ _ w2 R F L) by lia.
  simpl. unfold after_marker.
  destruct (Byte.eqb (Type_ h) Ty.GNU_LONGNAME); reflexivity.
Qed.

(** The entry that reaches the [switch], from a header whose checksum is
    valid. *)
Lemma prepare_ok (block : list byte) (st : state W) (d : TarInfo)
      (name : list byte) :
  DecodeTarHeader getpwnam getgrnam block = Some (d, true) ->
  let h := if negb (is_long d) then override d st else d in
  let st1 := if negb (is_long d) then clear_pending st else st in
  c_str (Name h) = Some name -> name <> [] ->
  prepare' block st = Ret (Entry h (length name) st1).
Proof.
  intros D h st1 C N. unfold prepare. rewrite D. simpl.
  assert (E : (if negb (is_long d) then (override d st, clear_pending st)
               else (d, st)) = (h, st1)).
  { unfold h, st1. destruct (negb (is_long d)); reflexivity. }
  rewrite E. unfold strlen.
  destruct (Name h) as [|c t] eqn:En; [discriminate|].
  destruct (is_nul c) eqn:Ec.
  - apply (proj2 (c_str_empty c t)) in Ec. congruence.
  - rewrite C. reflexivity.
Qed.

(** The pending slots are left alone by the [switch] of an entry that is
    no long name or long link. *)
Lemma dispatch_pending (h : TarInfo) (n : nat) (st : state W) (s : Z)
      (st' : state W) :
  is_long h = false ->
  dispatch' h n st = Ret (s, st') ->
  next_long_name st' = next_long_name st
  /\ next_long_link st' = next_long_link st.
Proof.
  unfold dispatch, is_long. intros L. rewrite L.
  repeat match goal with
         | |- context [if ?b then _ else _] => destruct b
         end;
    intros H;
    try (ret_snd H; unfold do_directory; rewrite ?invoke_eq; split; reflexivity).
  unfold do_symlink in H.
  destruct (m_strdup (Name h)); simpl in H; [|discriminate].
  destruct (m_strdup (LinkName h)); simpl in H; [|discriminate].
  injection H as _ <-. split; reflexivity.
Qed.

Lemma dispatch_long (h : TarInfo) (n : nat) (st : state W) :
  Type_ h = Ty.GNU_LONGNAME \/ Type_ h = Ty.GNU_LONGLINK ->
  dispatch' h n st = do_long' h st /\ is_long h = true.
Proof.
  intros [E|E]; unfold dispatch, is_long; rewrite E; split; reflexivity.
Qed.

(** The loop from an entry that reaches the [switch]. *)
Lemma main_loop_entry (fuel : nat) (st : state W) (block : list byte) (w1 : W)
      (h : TarInfo) (len : nat) (st1 : state W) :
  read ops (world st) = (TARBLKSZ, block, w1) ->
  prepare' block (with_world st w1 CallRead) = Ret (Entry h len st1) ->
  main_loop' (S fuel) st
  = ('(status, st') <- dispatch' h len st1 ;;
     if negb (status =? 0) then Ret (status, st') else main_loop' fuel st').
Proof.
  intros R P. rewrite (main_loop_step fuel st _ _ _ R). simpl.
  unfold loop_body. rewrite P. simpl.
  destruct (dispatch' h len st1) as [[s st']| | |]; simpl; try reflexivity.
  destruct (negb (s =? 0)); reflexivity.
Qed.

(** C4, as amended.  A long name (or long link) marker of declared size
    [Size dm] below 2^31, whose own name is not empty, is followed by the
    blocks [payload] that hold that many bytes, then by a header [br] whose
    checksum is valid and which is no marker itself.  Then the marker
    calls no operation and leaves in its pending slot exactly the first
    [Size dm] bytes of the payload, and the entry decoded from [br] gets
    them as its name (as its link name, for a long link marker), whatever
    the name field (link name field) of [br] holds.  When that name holds
    a C string that is not empty, the entry reaches the [switch] with it,
    and both pending slots are empty then and after the [switch].  Nothing
    is said of a name that holds no NUL. *)
Theorem long_name_override (fuel : nat) (st : state W) (bm : list byte)
        (w1 : W) (dm : TarInfo) (mname : list byte)
        (payload : list (list byte)) (w2 : W) (br : list byte) (w3 : W)
        (dr : TarInfo) :
  read ops (world st) = (TARBLKSZ, bm, w1) ->
  DecodeTarHeader getpwnam getgrnam bm = Some (dm, true) ->
  Type_ dm = Ty.GNU_LONGNAME \/ Type_ dm = Ty.GNU_LONGLINK ->
  c_str (Name dm) = Some mname -> mname <> [] ->
  0 <= Size dm < 2 ^ 31 ->
  length payload = blocks_for (Size dm) -> full_blocks payload ->
  reads_blocks ops w1 payload w2 ->
  read ops w2 = (TARBLKSZ, br, w3) ->
  DecodeTarHeader getpwnam getgrnam br = Some (dr, true) ->
  is_long dr = false ->
  let buf := firstn (Z.to_nat (Size dm)) (List.concat payload) in
  let st2 := after_marker dm buf (with_world st w1 CallRead) w2 (length payload) in
  let st3 := with_world st2 w3 CallRead in
  let h := override dr st3 in
  loop_body' bm (with_world st w1 CallRead) = Ret (Continue st2)
  /\ (Type_ dm = Ty.GNU_LONGNAME -> next_long_name st2 = Some buf /\ Name h = buf)
  /\ (Type_ dm = Ty.GNU_LONGLINK ->
      next_long_link st2 = Some buf /\ LinkName h = buf)
  /\ (forall name : list byte,
         c_str (Name h) = Some name -> name <> [] ->
         prepare' br st3 = Ret (Entry h (length name) (clear_pending st3))
         /\ main_loop' (S (S fuel)) st
            = ('(status, st') <- dispatch' h (length name) (clear_pending st3) ;;
               if negb (status =? 0) then Ret (status, st')
               else main_loop' fuel st')
         /\ next_long_name (clear_pending st3) = None
         /\ next_long_link (clear_pending st3) = None
         /\ (forall s st',
                dispatch' h (length name) (clear_pending st3) = Ret (s, st') ->
                next_long_name st' = None /\ next_long_link st' = None)).
Proof.
  intros Rm Dm Tm Cm Nm Bm Lp Fp Rp Rr Dr Lr buf st2 st3 h.
  destruct (dispatch_long dm (length mname) (with_world st w1 CallRead) Tm)
    as [Dl Il].
  (* the marker *)
  pose proof (prepare_ok bm (with_world st w1 CallRead) dm mname Dm) as Pm.
  rewrite Il in Pm. simpl in Pm. specialize (Pm Cm Nm).
  pose proof (do_long_full dm (with_world st w1 CallRead) payload w2 Bm Rp Fp Lp)
    as DL.
  assert (B1 : loop_body' bm (with_world st w1 CallRead) = Ret (Continue st2)).
  { unfold loop_body. rewrite Pm. simpl. rewrite Dl, DL. reflexivity. }
  assert (M1 : main_loop' (S (S fuel)) st = main_loop' (S fuel) st2).
  { rewrite (main_loop_entry (S fuel) st bm w1 _ _ _ Rm Pm).
    rewrite Dl, DL. reflexivity. }
  assert (W2 : world st2 = w2).
  { unfold st2, after_marker.
    destruct (Byte.eqb (Type_ dm) Ty.GNU_LONGNAME); reflexivity. }
  split; [exact B1|]. split; [|split].
  - intros E. unfold h, override, st3, st2, after_marker. rewrite E. cbn.
    split; [reflexivity|]. destruct (next_long_link st); reflexivity.
  - intros E. unfold h, override, st3, st2, after_marker. rewrite E. cbn.
    split; [reflexivity|]. destruct (next_long_name st); reflexivity.
  - intros name Ch Nh.
    pose proof (prepare_ok br st3 dr name Dr) as Pr.
    rewrite Lr in Pr. simpl in Pr. specialize (Pr Ch Nh).
    split; [exact Pr|]. split; [|split; [reflexivity|split; [reflexivity|]]].
    + rewrite M1. apply (main_loop_entry fuel st2 br w3).
      * rewrite W2. exact Rr.
      * exact Pr.
    + intros s st' D. apply dispatch_pending in D.
      * exact D.
      * unfold h, override.
        destruct (next_long_name st3), (next_long_link st3); exact Lr.
Qed.

Lemma blocks_for_pos (size : Z) (n : nat) :
  (n < blocks_for size)%nat -> 0 < size.
Proof.
  intros H. destruct (blocks_for size) as [|m] eqn:E; [lia|].
  apply blocks_for_succ in E. tauto.
Qed.

(** The [for] loop on a payload that stops short: after the full blocks
    [got], fewer than the payload needs, a read returns a count [n] that
    is not the block size. *)
Lemma read_long_short (got : list (list byte)) :
  forall (k : nat) (long_read : Z) (bp : list byte) (w : W) (tr : list call)
         (w2 : W) (n : Z) (b : list byte) (w3 : W),
    reads_blocks ops w got w2 -> full_blocks got ->
    (length got < blocks_for long_read)%nat ->
    (Z.to_nat long_read <= k)%nat ->
    read ops w2 = (n, b, w3) -> n <> TARBLKSZ ->
    read_long' k long_read bp TARBLKSZ w tr
    = Ret ((if 0 <? n then -1 else n), bp ++ List.concat got, w3,
           tr ++ repeat CallRead (S (length got))).
Proof.
  induction got as [|b0 got IH];
    intros k long_read bp w tr w2 n b w3 R F L K Rn N.
  - simpl in R. subst w2. pose proof (blocks_for_pos _ _ L) as P.
    destruct k as [|k]; [lia|].
    cbn [read_long]. replace (0 <? long_read) with true
      by (symmetry; apply Z.ltb_lt; exact P).
    rewrite Rn. replace (n =? TARBLKSZ) with false
      by (symmetry; apply Z.eqb_neq; exact N).
    simpl. rewrite app_nil_r. reflexivity.
  - simpl in R. destruct R as (w1 & R1 & R).
    inversion F as [|? ? Lb F']; subst.
    pose proof (blocks_for_pos _ _ L) as P.
    destruct (blocks_for long_read) as [|m] eqn:E; [lia|].
    apply blocks_for_succ in E. destruct E as [_ E].
    assert (L' : (length got < blocks_for (long_read - TARBLKSZ))%nat)
      by (unfold TARBLKSZ; rewrite E; simpl in L; lia).
    pose proof (blocks_for_pos _ _ L') as P'.
    destruct k as [|k]; [lia|].
    cbn [read_long]. replace (0 <? long_read) with true
      by (symmetry; apply Z.ltb_lt; exact P).
    rewrite R1. rewrite Z.eqb_refl, Lb.
    change (Nat.eqb 512 512) with true. cbn [negb].
    rewrite (IH k (long_read - TARBLKSZ) _ w1 _ w2 n b w3 R F' L');
      [|unfold TARBLKSZ in *; lia | exact Rn | exact N].
    rewrite Z.min_r by lia.
    change (Z.to_nat TARBLKSZ) with 512%nat.
    rewrite <- Lb at 1. rewrite firstn_all.
    cbn [List.concat length repeat]. rewrite <- !app_assoc. reflexivity.
Qed.

(** A long name or long link whose payload stops short.  A short count
    ends the loop with -1 and a negative count ends it with that count,
    but a count of 0, the end of the stream, leaves the status at 0: the
    loop goes on to read the next header, with what was copied in the
    pending slot. *)
Lemma truncated_long_name (fuel : nat) (st : state W) (bm : list byte) (w1 : W)
      (dm : TarInfo) (mname : list byte) (got : list (list byte)) (w2 : W)
      (n : Z) (b : list byte) (w3 : W) :
  read ops (world st) = (TARBLKSZ, bm, w1) ->
  DecodeTarHeader getpwnam getgrnam bm = Some (dm, true) ->
  Type_ dm = Ty.GNU_LONGNAME \/ Type_ dm = Ty.GNU_LONGLINK ->
  c_str (Name dm) = Some mname -> mname <> [] ->
  0 <= Size dm < 2 ^ 31 ->
  (length got < blocks_for (Size dm))%nat -> full_blocks got ->
  reads_blocks ops w1 got w2 ->
  read ops w2 = (n, b, w3) -> n <> TARBLKSZ ->
  let st2 := after_marker dm (List.concat got) (with_world st w1 CallRead) w3
                          (S (length got)) in
  (0 < n -> main_loop' (S fuel) st = Ret (-1, st2))
  /\ (n < 0 -> main_loop' (S fuel) st = Ret (n, st2))
  /\ (n = 0 -> main_loop' (S fuel) st = main_loop' fuel st2).
Proof.
  intros Rm Dm Tm Cm Nm Bm Lg Fg Rg Rn N st2.
  destruct (dispatch_long dm (length mname) (with_world st w1 CallRead) Tm)
    as [Dl Il].
  pose proof (prepare_ok bm (with_world st w1 CallRead) dm mname Dm) as Pm.
  rewrite Il in Pm. simpl in Pm. specialize (Pm Cm Nm).
  rewrite (main_loop_entry fuel st bm w1 _ _ _ Rm Pm), Dl.
  unfold do_long.
  replace (m_malloc_fails (Size dm)) with false
    by (symmetry; apply Z.ltb_ge; lia).
  rewrite (to_int_id _ Bm).
  rewrite (read_long_short got _ _ _ (world (with_world st w1 CallRead)) _ w2
                           n b w3 Rg Fg Lg) by (lia || assumption).
  cbn [bind app]. fold st2.
  assert (E : (if Byte.eqb (Type_ dm) Ty.GNU_LONGNAME
               then mk_state (Some (List.concat got))
                      (next_long_link (with_world st w1 CallRead))
                      (symlinks (with_world st w1 CallRead)) w3
                      (trace (with_world st w1 CallRead)
                       ++ repeat CallRead (S (length got)))
               else mk_state (next_long_name (with_world st w1 CallRead))
                      (Some (List.concat got))
                      (symlinks (with_world st w1 CallRead)) w3
                      (trace (with_world st w1 CallRead)
                       ++ repeat CallRead (S (length got)))) = st2)
    by reflexivity.
  rewrite E. clear E.
  split; [|split]; intros X.
  - replace (0 <? n) with true by (symmetry; apply Z.ltb_lt; exact X).
    reflexivity.
  - replace (0 <? n) with false by (symmetry; apply Z.ltb_ge; lia).
    replace (n <? 0) with true by (symmetry; apply Z.ltb_lt; exact X).
    simpl. replace (n =? 0) with false by (symmetry; apply Z.eqb_neq; lia).
    reflexivity.
  - subst n. reflexivity.
Qed.

End DriverFacts.

Lemma symlinks_after_main_pass_witness :
  exists status w' tr,
    TarExtractor Sim.world Example.no_id Example.no_id (Sim.sim_ops 0 0)
                 6 Archives.deferral = Ret (status, w', tr)
    /\ (status, map Sim.name_of tr)
       = (0, [Sim.Read_; Sim.Mkdir_ (Some (bytes "d")); Sim.Read_; Sim.Read_;
              Sim.Extract_ (Some (bytes "d/link/evil")); Sim.Read_; Sim.Read_;
              Sim.Symlink_ (Some (bytes "d/link"));
              Sim.Symlink_ (Some (bytes "z"))])
    /\ exists s0 st k,
        main_loop Sim.world Example.no_id Example.no_id (Sim.sim_ops 0 0)
                  6 (init Archives.deferral) = Ret (s0, st)
        /\ no_symlink_calls (trace st)
        /\ tr = trace st ++ map CallSymlink (firstn k (symlinks st))
        /\ (s0 = 0 -> k = length (symlinks st) \/ status <> 0)
        /\ (s0 <> 0 -> k = 0%nat).
Proof.
  eexists _, _, _. split; [vm_compute; reflexivity|].
  split; [vm_compute; reflexivity|].
  eapply (proj1 (symlinks_after_main_pass Sim.world Example.no_id Example.no_id
                   (Sim.sim_ops 0 0))).
  vm_compute. reflexivity.
Defined.

Lemma TarExtractor_never_positive_witness :
  (exists status w' tr,
      Sim.run 7 0 Archives.deferral = Ret (status, w', tr) /\ status <= 0)
  /\ TarExtractor Sim.world Example.no_id Example.no_id (Sim.sim_ops 0 0) 1
                  [(511, Archives.file_block)]
     = Ret (-1, [], [CallRead]).
Proof.
  split.
  - eexists _, _, _.
    assert (H : forall A B : Prop, A -> (A -> B) -> A /\ B) by tauto.
    apply H; [vm_compute; reflexivity|].
    apply (proj1 (TarExtractor_never_positive Sim.world Example.no_id
                    Example.no_id (Sim.sim_ops 7 0))).
  - apply (proj2 (TarExtractor_never_positive Sim.world Example.no_id
                    Example.no_id (Sim.sim_ops 0 0))
             0%nat _ 511 Archives.file_block []);
      [reflexivity | lia | discriminate].
Defined.

Lemma corrupt_block_decodes :
  exists d,
    DecodeTarHeader Example.no_id Example.no_id Archives.corrupt_block
    = Some (d, false)
    /\ c_str (Name d) = Some (bytes "f").
Proof. eexists. split; vm_compute; reflexivity. Qed.

Lemma bad_checksum_ends_loop_witness :
  TarExtractor Sim.world Example.no_id Example.no_id (Sim.sim_ops 0 0) 1
               (Sim.full [Example.zero_block; Archives.file_block])
  = Ret (0, Sim.full [Archives.file_block], [CallRead])
  /\ TarExtractor Sim.world Example.no_id Example.no_id (Sim.sim_ops 0 0) 1
                  (Sim.full [Archives.corrupt_block; Archives.file_block])
     = Ret (-1, Sim.full [Archives.file_block], [CallRead]).
Proof.
  pose proof (bad_checksum_ends_loop Sim.world Example.no_id Example.no_id
                (Sim.sim_ops 0 0)) as [T (d0 & D0 & N0)].
  destruct corrupt_block_decodes as (d1 & D1 & N1).
  split.
  - apply (T 0%nat (init (Sim.full [Example.zero_block; Archives.file_block]))
             Example.zero_block (Sim.full [Archives.file_block]) d0);
      [reflexivity | exact D0 | exact N0 | reflexivity].
  - apply (T 0%nat (init (Sim.full [Archives.corrupt_block; Archives.file_block]))
             Archives.corrupt_block (Sim.full [Archives.file_block]) d1);
      [reflexivity | exact D1 | rewrite N1; discriminate].
Defined.

(** C6, as stated, fails: [extract_file] returns 7 on the regular file of
    the archive, and [TarExtractor] returns -1, not 7. *)
Lemma op_status_not_verbatim :
  ~ (forall (W : Type) (getpwnam getgrnam : list byte -> option Z)
            (ops : tar_operations W) (fuel : nat) (st : state W)
            (buffer : list byte) (w1 : W) (h : TarInfo) (len : nat)
            (st1 : state W) (k : op_kind) (h' : TarInfo) (s : Z) (w2 : W),
        read ops (world st) = (TARBLKSZ, buffer, w1) ->
        prepare W getpwnam getgrnam buffer (with_world st w1 CallRead)
        = Ret (Entry h len st1) ->
        dispatch W ops h len st1 = Ret (invoke W ops k h' st1) ->
        op_fun W ops k (world st1) h' = (s, w2) ->
        s <> 0 ->
        exists w tr,
          extract_from W getpwnam getgrnam ops (S fuel) st = Ret (s, w, tr)).
Proof.
  intros C.
  edestruct (C Sim.world Example.no_id Example.no_id (Sim.sim_ops 7 0) 0%nat
               (init (Sim.full [Archives.file_block])) Archives.file_block []
               Archives.file_entry 1%nat (mk_state None None [] [] [CallRead])
               OpExtract Archives.file_entry 7 [])
    as (w & tr & E).
  - reflexivity.
  - vm_compute. reflexivity.
  - vm_compute. reflexivity.
  - reflexivity.
  - discriminate.
  - vm_compute in E. discriminate.
Qed.

Lemma op_failure_propagates_witness :
  TarExtractor Sim.world Example.no_id Example.no_id (Sim.sim_ops 7 0) 1
               (Sim.full [Archives.file_block])
  = Ret (-1, [],
         [CallRead;
          CallExtract Archives.file_entry])
  /\ TarExtractor Sim.world Example.no_id Example.no_id (Sim.sim_ops (-5) 0) 1
                  (Sim.full [Archives.file_block])
     = Ret (-5, [],
            [CallRead;
             CallExtract Archives.file_entry]).
Proof.
  split.
  - refine (proj2 (op_failure_propagates Sim.world Example.no_id Example.no_id
                     (Sim.sim_ops 7 0) 0%nat
                     (init (Sim.full [Archives.file_block]))
                     Archives.file_block [] Archives.file_entry 1%nat
                     (mk_state None None [] [] [CallRead])
                     OpExtract Archives.file_entry 7 [] _ _ _ _ _)).
    + reflexivity.
    + vm_compute. reflexivity.
    + vm_compute. reflexivity.
    + reflexivity.
    + discriminate.
  - refine (proj2 (op_failure_propagates Sim.world Example.no_id Example.no_id
                     (Sim.sim_ops (-5) 0) 0%nat
                     (init (Sim.full [Archives.file_block]))
                     Archives.file_block [] Archives.file_entry 1%nat
                     (mk_state None None [] [] [CallRead])
                     OpExtract Archives.file_entry (-5) [] _ _ _ _ _)).
    + reflexivity.
    + vm_compute. reflexivity.
    + vm_compute. reflexivity.
    + reflexivity.
    + discriminate.
Defined.


Lemma long_name_override_witness :
  Sim.summary (Sim.run 0 0 Archives.long_name)
  = Ret (0, [Sim.Read_; Sim.Read_; Sim.Read_;
             Sim.Link_ (Some (bytes "dir/x")); Sim.Read_])
  /\ exists h st4,
      Name h = bytes "dir/x" ++ [NUL]
      /\ next_long_name st4 = None /\ next_long_link st4 = None
      /\ main_loop Sim.world Example.no_id Example.no_id (Sim.sim_ops 0 0) 3
                   (init Archives.long_name)
         = ('(status, st') <- dispatch Sim.world (Sim.sim_ops 0 0) h 5 st4 ;;
            if negb (status =? 0) then Ret (status, st')
            else main_loop Sim.world Example.no_id Example.no_id
                           (Sim.sim_ops 0 0) 1 st').
Proof.
  split; [vm_compute; reflexivity|].
  edestruct (long_name_override Sim.world Example.no_id Example.no_id
               (Sim.sim_ops 0 0) 1%nat (init Archives.long_name)
               Archives.long_marker
               (Sim.full [Archives.long_payload; Archives.long_real])
               Archives.long_marker_entry
               (bytes "././@LongLink") [Archives.long_payload]
               (Sim.full [Archives.long_real]) Archives.long_real []
               Archives.long_real_entry)
    as (_ & N & _ & X).
  - reflexivity.
  - vm_compute. reflexivity.
  - left. reflexivity.
  - vm_compute. reflexivity.
  - discriminate.
  - cbn [Size Archives.long_marker_entry]. lia.
  - reflexivity.
  - repeat constructor.
  - simpl. eexists. split; reflexivity.
  - reflexivity.
  - vm_compute. reflexivity.
  - reflexivity.
  - destruct (N eq_refl) as [_ N'].
    destruct (X (bytes "dir/x")) as (_ & M & _);
      [rewrite N'; vm_compute; reflexivity | discriminate |].
    eexists _, _. split; [rewrite N'; vm_compute; reflexivity|].
    split; [|split; [|exact M]]; reflexivity.
Defined.

(** The two inputs on which the loop ends before the entry after a long
    name marker reaches the [switch]: a payload that starts with a NUL,
    and a marker whose own name field is empty.  In both [TarExtractor]
    returns -1 and no operation is called. *)
Lemma long_name_rejected_runs :
  Sim.summary (Sim.run 0 0 Archives.empty_long_name)
  = Ret (-1, [Sim.Read_; Sim.Read_; Sim.Read_])
  /\ Sim.summary (Sim.run 0 0 Archives.nameless_marker_archive)
     = Ret (-1, [Sim.Read_]).
Proof. split; vm_compute; reflexivity. Qed.

(** C4, as stated, fails: a long name marker of size 1 is followed by its
    one payload block, which starts with a NUL, and by a hard link entry
    whose checksum is valid.  The entry gets the empty long name, the
    loop ends with -1 (bad header data), and the entry does not reach the
    [switch]. *)
Lemma long_name_not_always_dispatched :
  ~ (forall (W : Type) (getpwnam getgrnam : list byte -> option Z)
            (ops : tar_operations W) (st : state W) (bm : list byte) (w1 : W)
            (dm : TarInfo) (payload : list (list byte)) (w2 : W)
            (br : list byte) (w3 : W) (dr : TarInfo),
        read ops (world st) = (TARBLKSZ, bm, w1) ->
        DecodeTarHeader getpwnam getgrnam bm = Some (dm, true) ->
        Type_ dm = Ty.GNU_LONGNAME \/ Type_ dm = Ty.GNU_LONGLINK ->
        length payload = blocks_for (Size dm) -> full_blocks payload ->
        reads_blocks ops w1 payload w2 ->
        read ops w2 = (TARBLKSZ, br, w3) ->
        DecodeTarHeader getpwnam getgrnam br = Some (dr, true) ->
        is_long dr = false ->
        let buf := firstn (Z.to_nat (Size dm)) (List.concat payload) in
        let st2 := after_marker dm buf (with_world st w1 CallRead) w2
                                (length payload) in
        let st3 := with_world st2 w3 CallRead in
        let h := override dr st3 in
        exists len : nat,
          prepare W getpwnam getgrnam br st3
          = Ret (Entry h len (clear_pending st3))
          /\ (Type_ dm = Ty.GNU_LONGNAME -> Name h = buf)
          /\ (Type_ dm = Ty.GNU_LONGLINK -> LinkName h = buf)).
Proof.
  intros C.
  destruct (C Sim.world Example.no_id Example.no_id (Sim.sim_ops 0 0)
              (init Archives.empty_long_name) Archives.empty_long_marker
              (Sim.full [Example.zero_block; Archives.long_real])
              Archives.empty_long_marker_entry [Example.zero_block]
              (Sim.full [Archives.long_real]) Archives.long_real []
              Archives.long_real_entry)
    as (len & P & _).
  - reflexivity.
  - vm_compute. reflexivity.
  - left. reflexivity.
  - reflexivity.
  - repeat constructor.
  - simpl. eexists. split; reflexivity.
  - reflexivity.
  - vm_compute. reflexivity.
  - reflexivity.
  - vm_compute in P. discriminate.
Qed.

(** C5 on the code: a long name marker of size 6 is followed by the end
    of the stream.  The read of the payload returns 0, the loop goes on,
    the next read returns 0 again, and [TarExtractor] returns 0, the
    status of a complete archive. *)
Lemma long_name_eof_returns_success :
  Sim.run 0 0 Archives.long_name_eof = Ret (0, [], [CallRead; CallRead; CallRead])
  /\ (exists d,
         DecodeTarHeader Example.no_id Example.no_id Archives.long_marker
         = Some (d, true)
         /\ Type_ d = Ty.GNU_LONGNAME /\ Size d = 6)
  /\ Sim.sim_read (Sim.full []) = (0, [], []).
Proof.
  split; [vm_compute; reflexivity|].
  split; [|reflexivity].
  eexists. split; [vm_compute; reflexivity|]. split; reflexivity.
Qed.

(** * Further properties of the decoder *)

(** ** StoC and get_prefix_name *)

Lemma until_nul_length (l : list byte) : (length (until_nul l) <= length l)%nat.
Proof.
  induction l as [|c l IH]; simpl; [lia|]. destruct (is_nul c); simpl; lia.
Qed.

Lemma firstn_app_exact (f rest : list byte) : firstn (length f) (f ++ rest) = f.
Proof.
  rewrite firstn_app, firstn_all, Nat.sub_diag. simpl. apply app_nil_r.
Qed.

(** X1.  [StoC] on a field [f] reads nothing after the field: whatever
    follows it in memory, the buffer returned holds the bytes of the field
    before its first NUL, or the whole field when it has none, and then
    one NUL; the string is never longer than the field. *)
Theorem StoC_field (f rest : list byte) :
  StoC (f ++ rest) (length f) = until_nul f ++ [NUL]
  /\ c_str (StoC (f ++ rest) (length f)) = Some (until_nul f)
  /\ (length (until_nul f) <= length f)%nat.
Proof.
  assert (E : StoC (f ++ rest) (length f) = until_nul f ++ [NUL])
    by (rewrite StoC_spec, firstn_app_exact; reflexivity).
  split; [exact E|]. split; [|apply until_nul_length].
  rewrite E. apply c_str_app_nul, until_nul_no_nul.
Qed.

Lemma field_string_length (off n : nat) (block : list byte) :
  (length (field_string off n block) <= n)%nat.
Proof.
  unfold field_string.
  pose proof (until_nul_length (firstn n (skipn off block))) as A.
  rewrite length_firstn in A. lia.
Qed.

(** X2.  The string that [get_prefix_name] builds fits the 257 bytes it
    allocates, terminator included, for every block. *)
Theorem get_prefix_name_fits (block : list byte) :
  (length (get_prefix_name block) <= 257)%nat
  /\ c_str (get_prefix_name block)
     = Some (field_string Off.Prefix 155 block ++ [SLASH]
             ++ field_string Off.Name 100 block).
Proof.
  rewrite get_prefix_name_spec. split.
  - rewrite !length_app. simpl.
    pose proof (field_string_length Off.Prefix 155 block).
    pose proof (field_string_length Off.Name 100 block). lia.
  - apply c_str_app_nul.
    apply no_nul_app; [apply until_nul_no_nul|].
    apply no_nul_app; [|apply until_nul_no_nul].
    constructor; [reflexivity | constructor].
Qed.

(** ** The fields of the decoded entry *)

Section DecoderMore.

Variable getpwnam : list byte -> option Z.
Variable getgrnam : list byte -> option Z.

Local Abbreviation decode := (DecodeTarHeader getpwnam getgrnam).

(** Every field of a decoded entry, from the calls that [DecodeTarHeader]
    makes. *)
Lemma decode_fields (block : list byte) (d : TarInfo) (ok : bool) :
  decode block = Some (d, ok) ->
  exists passwd group mode size mtime major minor uid gid,
    lookup_id getpwnam (at_off Off.UserName block) = Some passwd
    /\ lookup_id getgrnam (at_off Off.GroupName block) = Some group
    /\ OtoL (at_off Off.Mode block) 8 = Some mode
    /\ OtoL (at_off Off.Size block) 12 = Some size
    /\ OtoL (at_off Off.ModificationTime block) 12 = Some mtime
    /\ OtoL (at_off Off.MajorDevice block) 8 = Some major
    /\ OtoL (at_off Off.MinorDevice block) 8 = Some minor
    /\ OtoL (at_off Off.UserID block) 8 = Some uid
    /\ OtoL (at_off Off.GroupID block) 8 = Some gid
    /\ Mode d = mode
    /\ Size d = to_size_t size
    /\ ModTime d = mtime
    /\ Device d = Z.lor (Z.shiftl (Z.land major 255) 8) (Z.land minor 255)
    /\ UserID d = match passwd with Some u => u | None => uid end
    /\ GroupID d = match group with Some g => g | None => gid end.
Proof.
  intros H. unfold DecodeTarHeader in H.
  destruct (negb (Nat.eqb (length block) 512)); [discriminate|].
  destruct (lookup_id getpwnam _) as [passwd|]; [|discriminate].
  destruct (lookup_id getgrnam _) as [group|]; [|discriminate].
  destruct (OtoL (at_off Off.Mode block) 8) as [mode|]; [|discriminate].
  destruct (OtoL (at_off Off.Size block) 12) as [size|]; [|discriminate].
  destruct (OtoL (at_off Off.ModificationTime block) 12) as [mtime|];
    [|discriminate].
  destruct (OtoL (at_off Off.MajorDevice block) 8) as [major|]; [|discriminate].
  destruct (OtoL (at_off Off.MinorDevice block) 8) as [minor|]; [|discriminate].
  destruct (OtoL (at_off Off.Checksum block) 8) as [checksum|]; [|discriminate].
  destruct (OtoL (at_off Off.UserID block) 8) as [uid|]; [|discriminate].
  destruct (OtoL (at_off Off.GroupID block) 8) as [gid|]; [|discriminate].
  destruct (at_off Off.LinkFlag block) as [|flag rest]; [discriminate|].
  injection H as Hd _. subst d.
  exists passwd, group, mode, size, mtime, major, minor, uid, gid.
  cbn [Mode Size ModTime Device UserID GroupID]. repeat split.
Qed.

(** What [OtoL] returns on an 8-byte field of a 512-byte block: the octal
    number of the field, below 8^8. *)
Lemma octal_number_bound_gen (ds : list byte) (n : Z) (k : nat) :
  Forall (fun c => is_odigit c = true) ds ->
  0 <= n < 8 ^ Z.of_nat k ->
  0 <= fold_left (fun n c => n * 8 + digit_val c) ds n
  < 8 ^ Z.of_nat (k + length ds).
Proof.
  intros HF. revert n k. induction HF as [|c ds Hc HF IH]; intros n k Hn.
  - simpl. rewrite Nat.add_0_r. exact Hn.
  - simpl. pose proof (digit_val_range c Hc) as Hd.
    replace (k + S (length ds))%nat with (S k + length ds)%nat by lia.
    apply IH. rewrite Nat2Z.inj_succ, Z.pow_succ_r by lia. lia.
Qed.

Lemma octal_number_bound (ds : list byte) :
  Forall (fun c => is_odigit c = true) ds ->
  0 <= octal_number ds < 8 ^ Z.of_nat (length ds).
Proof.
  intros HF. apply (octal_number_bound_gen ds 0 0 HF). simpl. lia.
Qed.

Lemma OtoL_field8 (off : nat) (block : list byte) (v : Z) :
  (off + 8 <= length block)%nat ->
  OtoL (at_off off block) 8 = Some v ->
  v = field_octal off 8 block /\ 0 <= v < 8 ^ 8.
Proof.
  intros HL H. apply (OtoL_at_off off 8) in H; [|exact HL].
  pose proof (field_digits_length (firstn 8 (skipn off block))) as L.
  rewrite length_firstn in L.
  pose proof (take_digits_Forall (drop_spaces (firstn 8 (skipn off block))))
    as F.
  rewrite octal_int_exact in H; [|exact F | unfold field_digits in *; lia].
  split; [exact H|].
  pose proof (octal_number_bound _ F) as B. subst v.
  fold (field_digits (firstn 8 (skipn off block))) in B |- *.
  assert (8 ^ Z.of_nat (length (field_digits (firstn 8 (skipn off block))))
          <= 8 ^ 8) by (apply Z.pow_le_mono_r; lia).
  lia.
Qed.

(** X3.  Outside the ustar format, and in the ustar format when the prefix
    field is empty, the decoded name is the string of the name field alone,
    whatever the prefix field holds; the decoded link name is always the
    string of the link name field.  Both have at most 100 characters. *)
Theorem DecodeTarHeader_plain_name (block : list byte) (d : TarInfo) (ok : bool) :
  decode block = Some (d, ok) ->
  (format d <> tar_format_ustar \/ field_string Off.Prefix 155 block = [] ->
   c_str (Name d) = Some (field_string Off.Name 100 block))
  /\ c_str (LinkName d) = Some (field_string Off.LinkName 100 block)
  /\ (length (field_string Off.Name 100 block) <= 100)%nat
  /\ (length (field_string Off.LinkName 100 block) <= 100)%nat.
Proof.
  intros H.
  destruct (decode_inv _ _ _ _ _ H)
    as (size & checksum & flag & rest & _ & _ & _ & Ef & En & El & _).
  assert (S : forall off, c_str (StoC (at_off off block) 100)
                          = Some (field_string off 100 block)).
  { intros off. rewrite StoC_spec. apply c_str_app_nul, until_nul_no_nul. }
  split; [|split; [rewrite El; apply S|split; apply field_string_length]].
  intros C. rewrite En, <- Ef. unfold header_name.
  destruct (format d); try apply S.
  destruct C as [C|C]; [congruence|].
  unfold field_string in C. unfold at_off at 1.
  destruct (skipn Off.Prefix block) as [|c t]; [apply S|].
  simpl in C. destruct (is_nul c); [apply S | discriminate].
Qed.

Lemma lor_shift_bytes (a b : Z) :
  Z.lor (Z.shiftl (Z.land a 255) 8) (Z.land b 255)
  = (a mod 256) * 256 + b mod 256.
Proof.
  change 255 with (Z.ones 8). rewrite !Z.land_ones by lia.
  rewrite Z.shiftl_mul_pow2 by lia.
  change (2 ^ 8) with 256.
  rewrite <- Z.lxor_lor, <- Z.add_nocarry_lxor; try reflexivity.
  all: apply Z.bits_inj'; intros n Hn; rewrite Z.land_spec, Z.bits_0;
    change 256 with (2 ^ 8);
    destruct (Z_lt_ge_dec n 8) as [L|G];
    [ rewrite Z.mul_pow2_bits_low by lia; reflexivity
    | rewrite (Z.mod_pow2_bits_high b 8 n) by lia; apply andb_false_r ].
Qed.

(** X4.  The device number of the decoded entry packs the low 8 bits of
    the major device field in its high byte and the low 8 bits of the
    minor device field in its low byte; it is below 2^16. *)
Theorem DecodeTarHeader_device (block : list byte) (d : TarInfo) (ok : bool) :
  decode block = Some (d, ok) ->
  Device d = (field_octal Off.MajorDevice 8 block mod 256) * 256
             + field_octal Off.MinorDevice 8 block mod 256
  /\ 0 <= Device d < 2 ^ 16.
Proof.
  intros H. pose proof (decode_length _ _ _ _ H) as HL.
  destruct (decode_fields _ _ _ H)
    as (passwd & group & mode & size & mtime & major & minor & uid & gid
        & _ & _ & _ & _ & _ & Ema & Emi & _ & _ & _ & _ & _ & Ed & _).
  apply OtoL_field8 in Ema; [|rewrite HL; simpl; lia].
  apply OtoL_field8 in Emi; [|rewrite HL; simpl; lia].
  destruct Ema as [-> _]. destruct Emi as [-> _].
  rewrite Ed, lor_shift_bytes. split; [reflexivity|].
  pose proof (Z.mod_pos_bound (field_octal Off.MajorDevice 8 block) 256).
  pose proof (Z.mod_pos_bound (field_octal Off.MinorDevice 8 block) 256).
  change (2 ^ 16) with 65536. lia.
Qed.

(** X5.  The numeric owner of the decoded entry.  When the user name
    field starts with a NUL no lookup is made and the id is the octal
    number of the numeric field.  Otherwise [getpwnam] is asked for the C
    string that starts at the field: the id it finds replaces the numeric
    one, and the numeric one stays when it finds none.  The group id is
    set in the same way from the group fields and [getgrnam]. *)
Theorem DecodeTarHeader_owner (block : list byte) (d : TarInfo) (ok : bool) :
  decode block = Some (d, ok) ->
  (forall nm : list byte,
      c_str (at_off Off.UserName block) = Some nm ->
      UserID d = match nm with
                 | [] => field_octal Off.UserID 8 block
                 | _ :: _ => match getpwnam nm with
                             | Some u => u
                             | None => field_octal Off.UserID 8 block
                             end
                 end)
  /\ (forall nm : list byte,
         c_str (at_off Off.GroupName block) = Some nm ->
         GroupID d = match nm with
                     | [] => field_octal Off.GroupID 8 block
                     | _ :: _ => match getgrnam nm with
                                 | Some g => g
                                 | None => field_octal Off.GroupID 8 block
                                 end
                     end).
Proof.
  intros H. pose proof (decode_length _ _ _ _ H) as HL.
  destruct (decode_fields _ _ _ H)
    as (passwd & group & mode & size & mtime & major & minor & uid & gid
        & Lu & Lg & _ & _ & _ & _ & _ & Eu & Eg & _ & _ & _ & _ & Du & Dg).
  apply OtoL_field8 in Eu; [|rewrite HL; simpl; lia].
  apply OtoL_field8 in Eg; [|rewrite HL; simpl; lia].
  destruct Eu as [-> _]. destruct Eg as [-> _].
  assert (L : forall lookup s r nm,
             lookup_id lookup s = Some r -> c_str s = Some nm ->
             r = match nm with [] => None | _ :: _ => lookup nm end).
  { intros lookup s r nm A B. unfold lookup_id in A.
    destruct s as [|c t]; [discriminate|].
    destruct (is_nul c) eqn:E.
    - apply (proj2 (c_str_empty getpwnam getgrnam c t)) in E.
      assert (nm = []) by congruence. subst nm. congruence.
    - rewrite B in A. destruct nm as [|x nm'].
      + apply (proj1 (c_str_empty getpwnam getgrnam c t)) in B. congruence.
      + congruence. }
  split; intros nm C.
  - rewrite Du, (L _ _ _ _ Lu C). destruct nm; reflexivity.
  - rewrite Dg, (L _ _ _ _ Lg C). destruct nm; reflexivity.
Qed.

(** The [int] accumulation of the digits is their number reduced to an
    [int]. *)
Lemma to_int_congr (a b : Z) : a mod 2 ^ 32 = b mod 2 ^ 32 -> to_int a = to_int b.
Proof.
  intros H. unfold to_int. f_equal.
  rewrite (Z.add_mod a), (Z.add_mod b), H by lia. reflexivity.
Qed.

Lemma to_int_mod (a : Z) : to_int a mod 2 ^ 32 = a mod 2 ^ 32.
Proof.
  unfold to_int.
  replace ((a + 2 ^ 31) mod 2 ^ 32 - 2 ^ 31)
    with ((a + 2 ^ 31) mod 2 ^ 32 + (- 2 ^ 31)) by lia.
  rewrite Z.add_mod_idemp_l by lia. f_equal. lia.
Qed.

Lemma octal_int_wrap_gen (ds : list byte) (n m : Z) :
  to_int n = to_int m ->
  to_int (fold_left (fun n c => to_int (n * 8 + digit_val c)) ds n)
  = to_int (fold_left (fun n c => n * 8 + digit_val c) ds m).
Proof.
  revert n m. induction ds as [|c ds IH]; intros n m H; simpl; [exact H|].
  apply IH. apply to_int_congr. rewrite to_int_mod.
  assert (E : n mod 2 ^ 32 = m mod 2 ^ 32)
    by (rewrite <- (to_int_mod n), <- (to_int_mod m), H; reflexivity).
  rewrite (Z.add_mod (n * 8)), (Z.add_mod (m * 8)) by lia.
  rewrite (Z.mul_mod n), (Z.mul_mod m), E by lia. reflexivity.
Qed.

Lemma to_int_range (z : Z) : - 2 ^ 31 <= to_int z < 2 ^ 31.
Proof.
  unfold to_int. pose proof (Z.mod_pos_bound (z + 2 ^ 31) (2 ^ 32)). lia.
Qed.

Lemma octal_int_wrap (ds : list byte) : octal_int ds = to_int (octal_number ds).
Proof.
  unfold octal_int, octal_number.
  rewrite <- (octal_int_wrap_gen ds 0 0 eq_refl).
  destruct ds as [|c ds] using rev_ind; [reflexivity|].
  rewrite fold_left_app. simpl.
  symmetry. apply to_int_small. apply to_int_range.
Qed.

(** X6.  The mode of the decoded entry is the octal number of the 8-byte
    mode field, below 8^8.  The size is the octal number of the 12-byte
    size field reduced to a 32-bit [int] and then converted to [size_t]:
    it is that number when the number is below 2^31, and not otherwise. *)
Theorem DecodeTarHeader_mode_size (block : list byte) (d : TarInfo) (ok : bool) :
  decode block = Some (d, ok) ->
  Mode d = field_octal Off.Mode 8 block
  /\ 0 <= Mode d < 8 ^ 8
  /\ Size d = to_size_t (to_int (field_octal Off.Size 12 block))
  /\ (field_octal Off.Size 12 block < 2 ^ 31 ->
      Size d = field_octal Off.Size 12 block)
  /\ (2 ^ 31 <= field_octal Off.Size 12 block ->
      Size d <> field_octal Off.Size 12 block).
Proof.
  intros H. pose proof (decode_length _ _ _ _ H) as HL.
  destruct (decode_fields _ _ _ H)
    as (passwd & group & mode & size & mtime & major & minor & uid & gid
        & _ & _ & Em & Es & _ & _ & _ & _ & _ & Dm & Ds & _).
  apply OtoL_field8 in Em; [|rewrite HL; simpl; lia].
  destruct Em as [Em Bm].
  apply (OtoL_at_off Off.Size 12) in Es; [|rewrite HL; simpl; lia].
  rewrite octal_int_wrap in Es.
  fold (hfield Off.Size 12 block) in Es. fold (field_octal Off.Size 12 block) in Es.
  pose proof (octal_number_bound _ (take_digits_Forall
                                      (drop_spaces (hfield Off.Size 12 block))))
    as B.
  fold (field_digits (hfield Off.Size 12 block)) in B.
  fold (field_octal Off.Size 12 block) in B.
  pose proof (field_digits_length (hfield Off.Size 12 block)) as L.
  unfold hfield in L at 2. rewrite length_firstn in L.
  assert (U : field_octal Off.Size 12 block < 8 ^ 12).
  { assert (8 ^ Z.of_nat (length (field_digits (hfield Off.Size 12 block)))
            <= 8 ^ 12) by (apply Z.pow_le_mono_r; lia).
    lia. }
  change (8 ^ 12) with 68719476736 in U.
  rewrite Dm, Ds, Es, <- Em.
  split; [reflexivity|]. split; [exact Bm|]. split; [reflexivity|].
  pose proof (to_int_range (field_octal Off.Size 12 block)) as R.
  split; intros X.
  - rewrite to_int_small by lia. unfold to_size_t. apply Z.mod_small. lia.
  - unfold to_size_t.
    remember (field_octal Off.Size 12 block) as v.
    assert (M : to_int v mod 2 ^ 32 = v mod 2 ^ 32) by apply to_int_mod.
    intros E.
    destruct (Z_lt_ge_dec (to_int v) 0) as [N|P].
    + assert (Q : to_int v mod 2 ^ 64 = to_int v + 2 ^ 64).
      { symmetry. apply (Z.mod_unique _ _ (-1)); lia. }
      lia.
    + rewrite Z.mod_small in E by lia. lia.
Qed.

Lemma byte_val_range (c : byte) : 0 <= byte_val c <= 255.
Proof.
  unfold byte_val. pose proof (Byte.to_N_bounded c). lia.
Qed.

Lemma sum_range (l : list byte) :
  0 <= fold_right Z.add 0 (map byte_val l) <= 255 * Z.of_nat (length l).
Proof.
  induction l as [|c l IH]; simpl length; simpl fold_right; [lia|].
  pose proof (byte_val_range c). lia.
Qed.

(** X7.  A header passes the checksum test only when its checksum field
    reads between 256, the sum of the eight blanks, and 256 + 504 * 255:
    a checksum field that reads as 0, as in a block of zeros, never
    passes. *)
Theorem valid_checksum_range (block : list byte) (d : TarInfo) :
  decode block = Some (d, true) ->
  256 <= declared_checksum block <= 256 + 504 * 255.
Proof.
  intros H. pose proof (decode_length _ _ _ _ H) as HL.
  destruct (decode_inv _ _ _ _ _ H)
    as (size & checksum & flag & rest & _ & Hc & _ & _ & _ & _ & _ & _ & Hok).
  apply OtoL_field8 in Hc; [|rewrite HL; simpl; lia].
  destruct Hc as [Hc _]. symmetry in Hok. apply Z.eqb_eq in Hok.
  unfold declared_checksum, checksum_field.
  unfold field_octal, hfield in Hc. rewrite <- Hc, <- Hok.
  unfold blanked_sum, blank_checksum. rewrite !map_app, !sum_app.
  change (fold_right Z.add 0 (map byte_val (repeat SPACE 8))) with 256.
  pose proof (sum_range (firstn Off.Checksum block)) as A.
  pose proof (sum_range (skipn (Off.Checksum + 8) block)) as B.
  rewrite length_firstn in A. rewrite length_skipn in B. rewrite HL in A, B.
  change (Z.of_nat (Nat.min Off.Checksum 512)) with 148 in A.
  change (Z.of_nat (512 - (Off.Checksum + 8))) with 356 in B.
  lia.
Qed.

Lemma In_skipn_le (k m : nat) (l : list byte) (x : byte) :
  (k <= m)%nat -> In x (skipn m l) -> In x (skipn k l).
Proof.
  intros L H. replace m with ((m - k) + k)%nat in H by lia.
  rewrite <- skipn_skipn in H.
  rewrite <- (firstn_skipn (m - k) (skipn k l)). apply in_or_app. right. exact H.
Qed.

Lemma In_nul_not_space (s : list byte) : In NUL s -> Exists not_space s.
Proof.
  intros H. apply Exists_exists. exists NUL. split; [exact H | reflexivity].
Qed.

Lemma c_str_defined (s : list byte) : In NUL s -> exists r, c_str s = Some r.
Proof.
  induction s as [|c s IH]; simpl; [contradiction|].
  intros [E|H].
  - subst c. exists []. reflexivity.
  - destruct (is_nul c); [exists []; reflexivity|].
    destruct (IH H) as [r ->]. exists (c :: r). reflexivity.
Qed.

Lemma skipn_cons (k : nat) (l : list byte) :
  (k < length l)%nat -> exists c t, skipn k l = c :: t.
Proof.
  intros H. destruct (skipn k l) as [|c t] eqn:E; [|eauto].
  apply (f_equal (@length byte)) in E. rewrite length_skipn in E. simpl in E. lia.
Qed.

Lemma lookup_defined (lookup : list byte -> option Z) (off : nat)
      (block : list byte) :
  (off < length block)%nat -> In NUL (at_off off block) ->
  exists r, lookup_id lookup (at_off off block) = Some r.
Proof.
  intros L H. unfold lookup_id.
  destruct (skipn_cons off block L) as (c & t & E). unfold at_off in *.
  rewrite E in *. destruct (is_nul c); [eauto|].
  destruct (c_str_defined _ H) as [r ->]. eauto.
Qed.

Lemma OtoL_defined (off n : nat) (block : list byte) :
  (off + n <= length block)%nat -> In NUL (at_off off block) ->
  exists v, OtoL (at_off off block) (Z.of_nat n) = Some v.
Proof.
  intros L H. apply In_nul_not_space in H.
  rewrite (at_off_field off n) in *.
  pose proof (OtoL_field _ _ H) as E.
  rewrite (field_length off n block L) in E. eauto.
Qed.

(** X8.  [DecodeTarHeader] reads inside the block, and returns an entry
    and a flag, for every block of 512 bytes that holds a NUL in or after
    its prefix field (as every block written by tar does, in the padding
    after the prefix): the scans for a byte that is not a space, and for
    the end of the user and group names, then stop before the end of the
    block. *)
Theorem DecodeTarHeader_defined (block : list byte) :
  length block = 512%nat ->
  In NUL (skipn Off.Prefix block) ->
  exists d ok, decode block = Some (d, ok).
Proof.
  intros HL HN.
  assert (N : forall off, (off <= Off.Prefix)%nat -> In NUL (at_off off block))
    by (intros off L; apply (In_skipn_le off Off.Prefix); assumption).
  unfold DecodeTarHeader. rewrite HL. cbn [Nat.eqb negb].
  change (Nat.eqb 512 512) with true. cbn [negb].
  destruct (lookup_defined getpwnam Off.UserName block) as [p ->];
    [rewrite HL; nat_cmp | apply N; nat_cmp|].
  destruct (lookup_defined getgrnam Off.GroupName block) as [g ->];
    [rewrite HL; nat_cmp | apply N; nat_cmp|].
  destruct (OtoL_defined Off.Mode 8 block) as [mode E1];
    [rewrite HL; nat_cmp | apply N; nat_cmp|].
  destruct (OtoL_defined Off.Size 12 block) as [size E2];
    [rewrite HL; nat_cmp | apply N; nat_cmp|].
  destruct (OtoL_defined Off.ModificationTime 12 block) as [mtime E3];
    [rewrite HL; nat_cmp | apply N; nat_cmp|].
  destruct (OtoL_defined Off.MajorDevice 8 block) as [major E4];
    [rewrite HL; nat_cmp | apply N; nat_cmp|].
  destruct (OtoL_defined Off.MinorDevice 8 block) as [minor E5];
    [rewrite HL; nat_cmp | apply N; nat_cmp|].
  destruct (OtoL_defined Off.Checksum 8 block) as [checksum E6];
    [rewrite HL; nat_cmp | apply N; nat_cmp|].
  destruct (OtoL_defined Off.UserID 8 block) as [uid E7];
    [rewrite HL; nat_cmp | apply N; nat_cmp|].
  destruct (OtoL_defined Off.GroupID 8 block) as [gid E8];
    [rewrite HL; nat_cmp | apply N; nat_cmp|].
  change (Z.of_nat 8) with 8 in *. change (Z.of_nat 12) with 12 in *.
  rewrite E1, E2, E3, E4, E5, E6, E7, E8.
  destruct (skipn_cons Off.LinkFlag block) as (flag & t & E9);
    [rewrite HL; nat_cmp|].
  unfold at_off at 1. rewrite E9. eauto.
Qed.

End DecoderMore.

Lemma DecodeTarHeader_plain_name_witness :
  exists d ok,
    DecodeTarHeader Example.no_id Example.no_id More.gnu_prefix_block
    = Some (d, ok)
    /\ field_string Off.Prefix 155 More.gnu_prefix_block = bytes "prefix"
    /\ c_str (Name d) = Some (bytes "name")
    /\ c_str (LinkName d) = Some [].
Proof.
  eexists _, _.
  assert (P : forall A B : Prop, A -> (A -> B) -> A /\ B) by tauto.
  apply P; [vm_compute; reflexivity|]. intros H.
  destruct (DecodeTarHeader_plain_name _ _ _ _ _ H) as (A & B & _).
  split; [vm_compute; reflexivity|]. split.
  - rewrite A; [vm_compute; reflexivity|]. left. discriminate.
  - rewrite B. vm_compute. reflexivity.
Defined.

Lemma DecodeTarHeader_device_witness :
  exists d ok,
    DecodeTarHeader Example.no_id Example.no_id More.owned_block = Some (d, ok)
    /\ Device d = 3 * 256 + 7 /\ 0 <= Device d < 2 ^ 16.
Proof.
  eexists _, _.
  assert (P : forall A B : Prop, A -> (A -> B) -> A /\ B) by tauto.
  apply P; [vm_compute; reflexivity|]. intros H.
  destruct (DecodeTarHeader_device _ _ _ _ _ H) as (A & B).
  split; [rewrite A; vm_compute; reflexivity | exact B].
Defined.

Lemma DecodeTarHeader_owner_witness :
  exists d ok,
    DecodeTarHeader More.root_only More.root_only More.owned_block
    = Some (d, ok)
    /\ UserID d = 0 /\ GroupID d = 100.
Proof.
  eexists _, _.
  assert (P : forall A B : Prop, A -> (A -> B) -> A /\ B) by tauto.
  apply P; [vm_compute; reflexivity|]. intros H.
  destruct (DecodeTarHeader_owner _ _ _ _ _ H) as (A & B).
  split.
  - rewrite (A (bytes "root")); [reflexivity | vm_compute; reflexivity].
  - rewrite (B (bytes "wheel")); vm_compute; reflexivity.
Defined.

Lemma DecodeTarHeader_mode_size_witness :
  (exists d ok,
      DecodeTarHeader Example.no_id Example.no_id
                      (Example.header (Example.entry Ty.NormalFile1 "f" "" 1234))
      = Some (d, ok)
      /\ Mode d = 420 /\ Size d = 1234)
  /\ (exists d ok,
         DecodeTarHeader Example.no_id Example.no_id
                         (Example.header
                            (Example.entry Ty.NormalFile1 "f" "" (2 ^ 32)))
         = Some (d, ok)
         /\ field_octal Off.Size 12
                        (Example.header
                           (Example.entry Ty.NormalFile1 "f" "" (2 ^ 32)))
            = 2 ^ 32
         /\ Size d = 0).
Proof.
  assert (P : forall A B : Prop, A -> (A -> B) -> A /\ B) by tauto.
  split.
  - eexists _, _.
    apply P; [vm_compute; reflexivity|]. intros H.
    destruct (DecodeTarHeader_mode_size _ _ _ _ _ H) as (A & _ & _ & B & _).
    split.
    + rewrite A. vm_compute. reflexivity.
    + rewrite B; vm_compute; reflexivity.
  - eexists _, _.
    apply P; [vm_compute; reflexivity|]. intros H.
    destruct (DecodeTarHeader_mode_size _ _ _ _ _ H) as (_ & _ & C & _).
    split; [vm_compute; reflexivity|]. rewrite C. vm_compute. reflexivity.
Defined.

Lemma valid_checksum_range_witness :
  256 <= declared_checksum Archives.file_block <= 256 + 504 * 255.
Proof.
  eapply (valid_checksum_range Example.no_id Example.no_id).
  vm_compute. reflexivity.
Defined.

Lemma DecodeTarHeader_defined_witness :
  exists d ok,
    DecodeTarHeader Example.no_id Example.no_id Archives.file_block
    = Some (d, ok).
Proof.
  apply DecodeTarHeader_defined; [reflexivity|].
  vm_compute. left. reflexivity.
Defined.

(** * Further properties of the driver *)

Section DriverMore.

Variable W : Type.
Variable getpwnam : list byte -> option Z.
Variable getgrnam : list byte -> option Z.
Variable ops : tar_operations W.

Local Abbreviation invoke' := (invoke W ops).
Local Abbreviation dispatch' := (dispatch W ops).
Local Abbreviation prepare' := (prepare W getpwnam getgrnam).
Local Abbreviation loop_body' := (loop_body W getpwnam getgrnam ops).
Local Abbreviation main_loop' := (main_loop W getpwnam getgrnam ops).
Local Abbreviation drain' := (drain W ops).
Local Abbreviation extract_from' := (extract_from W getpwnam getgrnam ops).
Local Abbreviation TarExtractor' := (TarExtractor W getpwnam getgrnam ops).

Lemma main_loop_short_read (fuel : nat) (st : state W) (n : Z)
      (buffer : list byte) (w1 : W) :
  read ops (world st) = (n, buffer, w1) -> n <> TARBLKSZ ->
  main_loop' (S fuel) st = Ret (n, with_world st w1 CallRead).
Proof.
  intros R N. rewrite (main_loop_step W getpwnam getgrnam ops fuel st _ _ _ R).
  destruct (n =? TARBLKSZ) eqn:E; [apply Z.eqb_eq in E; contradiction|].
  reflexivity.
Qed.

(** X9.  A read of a header block that returns 0, the end of the stream,
    ends the main pass with status 0: the queued symbolic links are then
    created, and [TarExtractor] returns 0 when there is none.  A read that
    returns a negative count ends it with that count, which [TarExtractor]
    returns as it is, without creating any queued symbolic link. *)
Theorem header_read_not_full (fuel : nat) (st : state W) (n : Z)
        (buffer : list byte) (w1 : W) :
  read ops (world st) = (n, buffer, w1) ->
  (n = 0 ->
   extract_from' (S fuel) st
   = (let '(s, w, tr) := drain' (symlinks st) 0 w1 (trace st ++ [CallRead]) in
      Ret (final_status s, w, tr))
   /\ (symlinks st = [] ->
       extract_from' (S fuel) st = Ret (0, w1, trace st ++ [CallRead])))
  /\ (n < 0 ->
      extract_from' (S fuel) st = Ret (n, w1, trace st ++ [CallRead])).
Proof.
  intros R. split; intros X.
  - assert (M : main_loop' (S fuel) st = Ret (n, with_world st w1 CallRead))
      by (apply (main_loop_short_read fuel st n buffer w1 R);
          unfold TARBLKSZ; lia).
    subst n. unfold extract_from. rewrite M. simpl.
    split; [reflexivity|]. intros Q. rewrite Q. reflexivity.
  - assert (M : main_loop' (S fuel) st = Ret (n, with_world st w1 CallRead))
      by (apply (main_loop_short_read fuel st n buffer w1 R);
          unfold TARBLKSZ; lia).
    rewrite (extract_from_break W getpwnam getgrnam ops _ _ _ _ M) by lia.
    unfold final_status.
    replace (0 <? n) with false by (symmetry; apply Z.ltb_ge; lia).
    reflexivity.
Qed.

(** X10.  A header whose checksum is valid but whose name, after the long
    name override, is empty ends the extraction with -1: no operation is
    called for it and no queued symbolic link is created. *)
Theorem empty_name_rejected (fuel : nat) (st : state W) (block : list byte)
        (w1 : W) (d : TarInfo) :
  read ops (world st) = (TARBLKSZ, block, w1) ->
  DecodeTarHeader getpwnam getgrnam block = Some (d, true) ->
  c_str (Name (if is_long d then d else override d st)) = Some [] ->
  extract_from' (S fuel) st = Ret (-1, w1, trace st ++ [CallRead]).
Proof.
  intros R D C.
  assert (P : exists st1,
             prepare' block (with_world st w1 CallRead) = Ret (Stop (-1) st1)
             /\ world st1 = w1 /\ trace st1 = trace st ++ [CallRead]).
  { unfold prepare. rewrite D. simpl.
    destruct (is_long d); simpl in *.
    - destruct (Name d) as [|c t]; [discriminate|].
      apply (c_str_empty getpwnam getgrnam) in C. rewrite C. eauto.
    - change (override d (with_world st w1 CallRead)) with (override d st).
      destruct (Name (override d st)) as [|c t]; [discriminate|].
      apply (c_str_empty getpwnam getgrnam) in C. rewrite C.
      eexists. split; [reflexivity|]. split; reflexivity. }
  destruct P as (st1 & P & W1 & T1).
  assert (M : main_loop' (S fuel) st = Ret (-1, st1)).
  { rewrite (main_loop_step W getpwnam getgrnam ops fuel st _ _ _ R). simpl.
    unfold loop_body. rewrite P. reflexivity. }
  rewrite (extract_from_break W getpwnam getgrnam ops _ _ _ _ M) by lia.
  rewrite W1, T1. reflexivity.
Qed.

Lemma prepare_entry_state (block : list byte) (st : state W) (h : TarInfo)
      (len : nat) (st1 : state W) :
  prepare' block st = Ret (Entry h len st1) ->
  world st1 = world st /\ trace st1 = trace st /\ symlinks st1 = symlinks st.
Proof.
  intros P. apply (prepare_grows W getpwnam getgrnam) in P. simpl in P. tauto.
Qed.

Lemma dispatch_unknown (h : TarInfo) (len : nat) (st : state W) :
  known_type (Type_ h) = false -> dispatch' h len st = Ret (-1, st).
Proof.
  unfold known_type. cbn [existsb]. intros H.
  repeat (apply orb_false_elim in H; destruct H as [? H]).
  unfold dispatch.
  repeat match goal with
         | E : Byte.eqb _ _ = false |- _ => rewrite E; clear E
         end.
  reflexivity.
Qed.

(** X11.  An entry that reaches the [switch] with a link flag for which
    it has no case ends the extraction with -1: no operation is called for
    it and no queued symbolic link is created. *)
Theorem unknown_type_rejected (fuel : nat) (st : state W) (block : list byte)
        (w1 : W) (h : TarInfo) (len : nat) (st1 : state W) :
  read ops (world st) = (TARBLKSZ, block, w1) ->
  prepare' block (with_world st w1 CallRead) = Ret (Entry h len st1) ->
  known_type (Type_ h) = false ->
  extract_from' (S fuel) st = Ret (-1, w1, trace st ++ [CallRead]).
Proof.
  intros R P K.
  assert (M : main_loop' (S fuel) st = Ret (-1, st1)).
  { rewrite (main_loop_entry W getpwnam getgrnam ops fuel st _ _ _ _ _ R P).
    rewrite (dispatch_unknown h len st1 K). reflexivity. }
  rewrite (extract_from_break W getpwnam getgrnam ops _ _ _ _ M) by lia.
  destruct (prepare_entry_state _ _ _ _ _ P) as (W1 & T1 & _).
  rewrite W1, T1. reflexivity.
Qed.


(** X13.  An entry that reaches the [switch] with the type of a symbolic
    link: no operation is called, the status is 0, and a copy of the
    entry, with its name and its link name as fresh C strings, becomes
    the last node of the queue; the loop goes on to the next header. *)
Theorem symlink_entry_deferred (fuel : nat) (st : state W) (block : list byte)
        (w1 : W) (h : TarInfo) (len : nat) (st1 : state W)
        (name target : list byte) :
  read ops (world st) = (TARBLKSZ, block, w1) ->
  prepare' block (with_world st w1 CallRead) = Ret (Entry h len st1) ->
  Type_ h = Ty.SymbolicLink ->
  c_str (Name h) = Some name ->
  c_str (LinkName h) = Some target ->
  let node := set_LinkName (set_Name h (name ++ [NUL])) (target ++ [NUL]) in
  let st2 := mk_state (next_long_name st1) (next_long_link st1)
                      (symlinks st ++ [node]) w1 (trace st ++ [CallRead]) in
  dispatch' h len st1 = Ret (0, st2)
  /\ main_loop' (S fuel) st = main_loop' fuel st2
  /\ c_str (Name node) = Some name
  /\ c_str (LinkName node) = Some target.
Proof.
  intros R P T Cn Cl node st2.
  destruct (prepare_entry_state _ _ _ _ _ P) as (W1 & T1 & Q1).
  simpl in W1, T1, Q1.
  assert (D : dispatch' h len st1 = Ret (0, st2)).
  { unfold dispatch. rewrite T. cbn [Byte.eqb orb]. simpl.
    unfold do_symlink, m_strdup. rewrite Cn, Cl. simpl.
    unfold st2, node. rewrite W1, T1, Q1. reflexivity. }
  split; [exact D|]. split.
  - rewrite (main_loop_entry W getpwnam getgrnam ops fuel st _ _ _ _ _ R P).
    rewrite D. reflexivity.
  - destruct (c_str_split _ _ Cn) as (Nn & _).
    destruct (c_str_split _ _ Cl) as (Nl & _).
    split; apply c_str_app_nul; assumption.
Qed.

Lemma drain_failed (q : list TarInfo) (s : Z) (w : W) (tr : list call) :
  s <> 0 -> drain' q s w tr = (s, w, tr).
Proof.
  intros N. induction q as [|node q IH]; simpl; [reflexivity|].
  replace (s =? 0) with false by (symmetry; apply Z.eqb_neq; exact N).
  exact IH.
Qed.

Lemma drain_prefix (q1 q2 : list TarInfo) (w : W) (tr : list call) (w1 : W) :
  symlinks_ok ops w q1 w1 ->
  drain' (q1 ++ q2) 0 w tr = drain' q2 0 w1 (tr ++ map CallSymlink q1).
Proof.
  revert w tr. induction q1 as [|node q1 IH]; intros w tr H; simpl in *.
  - subst w1. rewrite app_nil_r. reflexivity.
  - destruct H as (w' & E & H). rewrite E. rewrite (IH _ _ H).
    rewrite <- app_assoc. reflexivity.
Qed.

(** X14.  After a main pass that ended with status 0, when the symlink
    creation succeeds on every queued node in turn, it is called once on
    each node, in the order of the queue, and [TarExtractor] returns 0. *)
Theorem drain_all_succeed (fuel : nat) (st st' : state W) (w1 : W) :
  main_loop' fuel st = Ret (0, st') ->
  symlinks_ok ops (world st') (symlinks st') w1 ->
  extract_from' fuel st
  = Ret (0, w1, trace st' ++ map CallSymlink (symlinks st')).
Proof.
  intros M H. unfold extract_from. rewrite M. simpl.
  rewrite <- (app_nil_r (symlinks st')) at 1.
  rewrite (drain_prefix _ [] _ _ w1 H). reflexivity.
Qed.

(** X15.  After a main pass that ended with status 0, when the symlink
    creation succeeds on the nodes [q1] and fails with status [s] on the
    next node, the nodes after it get no call: the calls are those on [q1]
    and on the failing node, and [TarExtractor] returns [s] when it is
    negative, -1 when it is positive. *)
Theorem drain_first_failure (fuel : nat) (st st' : state W)
        (q1 : list TarInfo) (node : TarInfo) (q2 : list TarInfo)
        (w1 w2 : W) (s : Z) :
  main_loop' fuel st = Ret (0, st') ->
  symlinks st' = q1 ++ node :: q2 ->
  symlinks_ok ops (world st') q1 w1 ->
  symlink ops w1 node = (s, w2) ->
  s <> 0 ->
  extract_from' fuel st
  = Ret (final_status s, w2, trace st' ++ map CallSymlink (q1 ++ [node])).
Proof.
  intros M Q H F N. unfold extract_from. rewrite M. simpl. rewrite Q.
  rewrite (drain_prefix _ _ _ _ w1 H). simpl. rewrite F.
  rewrite (drain_failed q2 s w2 _ N).
  rewrite map_app, app_assoc. reflexivity.
Qed.

(** X16.  A long name or long link marker whose payload is read in full
    calls no operation and reads exactly the blocks of its payload.  It
    replaces whatever was pending in its own slot by the first [Size dm]
    bytes of the payload, and leaves the other slot and the queue as they
    were: the pending slots are not consumed by a marker, and a later
    marker of the same kind overrides an earlier one. *)
Theorem marker_sets_its_slot (st : state W) (bm : list byte) (w1 : W)
        (dm : TarInfo) (mname : list byte) (payload : list (list byte))
        (w2 : W) :
  read ops (world st) = (TARBLKSZ, bm, w1) ->
  DecodeTarHeader getpwnam getgrnam bm = Some (dm, true) ->
  Type_ dm = Ty.GNU_LONGNAME \/ Type_ dm = Ty.GNU_LONGLINK ->
  c_str (Name dm) = Some mname -> mname <> [] ->
  0 <= Size dm < 2 ^ 31 ->
  length payload = blocks_for (Size dm) -> full_blocks payload ->
  reads_blocks ops w1 payload w2 ->
  let buf := firstn (Z.to_nat (Size dm)) (List.concat payload) in
  exists st2,
    loop_body' bm (with_world st w1 CallRead) = Ret (Continue st2)
    /\ world st2 = w2
    /\ trace st2 = trace st ++ CallRead :: repeat CallRead (length payload)
    /\ symlinks st2 = symlinks st
    /\ (Type_ dm = Ty.GNU_LONGNAME ->
        next_long_name st2 = Some buf
        /\ next_long_link st2 = next_long_link st)
    /\ (Type_ dm = Ty.GNU_LONGLINK ->
        next_long_link st2 = Some buf
        /\ next_long_name st2 = next_long_name st).
Proof.
  intros Rm Dm Tm Cm Nm Bm Lp Fp Rp buf.
  destruct (dispatch_long W ops dm (length mname) (with_world st w1 CallRead) Tm)
    as [Dl Il].
  pose proof (prepare_ok W getpwnam getgrnam bm (with_world st w1 CallRead)
                         dm mname Dm) as Pm.
  rewrite Il in Pm. simpl in Pm. specialize (Pm Cm Nm).
  pose proof (do_long_full W ops dm (with_world st w1 CallRead) payload w2
                           Bm Rp Fp Lp) as DL.
  eexists. split.
  { unfold loop_body. rewrite Pm. simpl. rewrite Dl, DL. reflexivity. }
  unfold after_marker.
  destruct Tm as [E|E]; rewrite E; cbn;
    rewrite <- app_assoc;
    (split; [reflexivity|]); (split; [reflexivity|]); (split; [reflexivity|]);
    split; intros X; try discriminate; split; reflexivity.
Qed.

(** X17.  When the payload of a long name or long link stops short with
    a read that returns a positive count other than the block size, the
    extraction ends with -1; when the read returns a negative count, it
    ends with that count.  No operation is called and no queued symbolic
    link is created. *)
Theorem truncated_payload_fails (fuel : nat) (st : state W) (bm : list byte)
        (w1 : W) (dm : TarInfo) (mname : list byte) (got : list (list byte))
        (w2 : W) (n : Z) (b : list byte) (w3 : W) :
  read ops (world st) = (TARBLKSZ, bm, w1) ->
  DecodeTarHeader getpwnam getgrnam bm = Some (dm, true) ->
  Type_ dm = Ty.GNU_LONGNAME \/ Type_ dm = Ty.GNU_LONGLINK ->
  c_str (Name dm) = Some mname -> mname <> [] ->
  0 <= Size dm < 2 ^ 31 ->
  (length got < blocks_for (Size dm))%nat -> full_blocks got ->
  reads_blocks ops w1 got w2 ->
  read ops w2 = (n, b, w3) -> n <> TARBLKSZ ->
  let tr := trace st ++ CallRead :: repeat CallRead (S (length got)) in
  (0 < n -> extract_from' (S fuel) st = Ret (-1, w3, tr))
  /\ (n < 0 -> extract_from' (S fuel) st = Ret (n, w3, tr)).
Proof.
  intros Rm Dm Tm Cm Nm Bm Lg Fg Rg Rn N tr.
  destruct (truncated_long_name W getpwnam getgrnam ops fuel st bm w1 dm mname
              got w2 n b w3 Rm Dm Tm Cm Nm Bm Lg Fg Rg Rn N)
    as (P & Q & _).
  assert (S2 : forall buf,
             world (after_marker dm buf (with_world st w1 CallRead) w3
                                 (S (length got))) = w3
             /\ trace (after_marker dm buf (with_world st w1 CallRead) w3
                                    (S (length got))) = tr).
  { intros buf. unfold after_marker, tr.
    destruct (Byte.eqb (Type_ dm) Ty.GNU_LONGNAME); cbn;
      rewrite <- app_assoc; split; reflexivity. }
  split; intros X.
  - rewrite (extract_from_break W getpwnam getgrnam ops _ _ _ _ (P X)) by lia.
    destruct (S2 (List.concat got)) as [-> ->]. reflexivity.
  - rewrite (extract_from_break W getpwnam getgrnam ops _ _ _ _ (Q X)) by lia.
    destruct (S2 (List.concat got)) as [-> ->].
    unfold final_status.
    replace (0 <? n) with false by (symmetry; apply Z.ltb_ge; lia).
    reflexivity.
Qed.

(** X18.  When an operation called from the [switch] returns 0, the loop
    goes on: it reads the next header from the world that the operation
    left, with the queue and the pending slots of the entry. *)
Theorem op_success_continues (fuel : nat) (st : state W) (buffer : list byte)
        (w1 : W) (h : TarInfo) (len : nat) (st1 : state W) (k : op_kind)
        (h' : TarInfo) (w2 : W) :
  read ops (world st) = (TARBLKSZ, buffer, w1) ->
  prepare' buffer (with_world st w1 CallRead) = Ret (Entry h len st1) ->
  dispatch' h len st1 = Ret (invoke' k h' st1) ->
  op_fun W ops k (world st1) h' = (0, w2) ->
  main_loop' (S fuel) st
  = main_loop' fuel
      (mk_state (next_long_name st1) (next_long_link st1) (symlinks st) w2
                (trace st ++ [CallRead; op_call k h'])).
Proof.
  intros R P D O.
  destruct (prepare_entry_state _ _ _ _ _ P) as (_ & T1 & Q1).
  simpl in T1, Q1.
  rewrite (main_loop_entry W getpwnam getgrnam ops fuel st _ _ _ _ _ R P).
  rewrite D. simpl. rewrite invoke_eq, O. simpl.
  unfold with_world. rewrite T1, Q1, <- app_assoc. reflexivity.
Qed.

End DriverMore.

Lemma header_read_not_full_witness :
  TarExtractor Sim.world Example.no_id Example.no_id (Sim.sim_ops 0 0) 1 []
  = Ret (0, [], [CallRead])
  /\ TarExtractor Sim.world Example.no_id Example.no_id (Sim.sim_ops 0 0) 1
                  [(-5, [])]
     = Ret (-5, [], [CallRead]).
Proof.
  split.
  - apply (proj1 (header_read_not_full Sim.world Example.no_id Example.no_id
                    (Sim.sim_ops 0 0) 0%nat (init []) 0 [] [] eq_refl)
                 eq_refl).
    reflexivity.
  - apply (proj2 (header_read_not_full Sim.world Example.no_id Example.no_id
                    (Sim.sim_ops 0 0) 0%nat (init [(-5, [])]) (-5) [] []
                    eq_refl)).
    reflexivity.
Defined.

Lemma empty_name_rejected_witness :
  TarExtractor Sim.world Example.no_id Example.no_id (Sim.sim_ops 0 0) 1
               (Sim.full [More.nameless_block; Archives.file_block])
  = Ret (-1, Sim.full [Archives.file_block], [CallRead]).
Proof.
  eapply (empty_name_rejected Sim.world Example.no_id Example.no_id
            (Sim.sim_ops 0 0) 0%nat
            (init (Sim.full [More.nameless_block; Archives.file_block]))
            More.nameless_block (Sim.full [Archives.file_block])).
  - reflexivity.
  - vm_compute. reflexivity.
  - vm_compute. reflexivity.
Defined.

Lemma unknown_type_rejected_witness :
  TarExtractor Sim.world Example.no_id Example.no_id (Sim.sim_ops 0 0) 1
               (Sim.full [More.strange_block; Archives.file_block])
  = Ret (-1, Sim.full [Archives.file_block], [CallRead]).
Proof.
  eapply (unknown_type_rejected Sim.world Example.no_id Example.no_id
            (Sim.sim_ops 0 0) 0%nat
            (init (Sim.full [More.strange_block; Archives.file_block]))
            More.strange_block (Sim.full [Archives.file_block])).
  - reflexivity.
  - vm_compute. reflexivity.
  - vm_compute. reflexivity.
Defined.


Lemma symlink_entry_deferred_witness :
  exists h st1,
    prepare Sim.world Example.no_id Example.no_id More.symlink_block
            (with_world (init (Sim.full [More.symlink_block])) [] CallRead)
    = Ret (Entry h 1 st1)
    /\ dispatch Sim.world (Sim.sim_ops 0 0) h 1 st1
       = Ret (0, mk_state (next_long_name st1) (next_long_link st1)
                          ([] ++ [set_LinkName
                                    (set_Name h (bytes "s" ++ [NUL]))
                                    (bytes "target" ++ [NUL])])
                          [] ([] ++ [CallRead])).
Proof.
  assert (P : forall A B : Prop, A -> (A -> B) -> A /\ B) by tauto.
  eexists _, _. apply P; [vm_compute; reflexivity|]. intros H.
  refine (proj1 (symlink_entry_deferred Sim.world Example.no_id Example.no_id
                   (Sim.sim_ops 0 0) 0%nat
                   (init (Sim.full [More.symlink_block])) More.symlink_block
                   [] _ _ _ (bytes "s") (bytes "target") eq_refl H _ _ _)).
  - reflexivity.
  - vm_compute. reflexivity.
  - vm_compute. reflexivity.
Defined.

Lemma drain_all_succeed_witness :
  exists st',
    main_loop Sim.world Example.no_id Example.no_id (Sim.sim_ops 0 0) 6
              (init Archives.deferral) = Ret (0, st')
    /\ length (symlinks st') = 2%nat
    /\ extract_from Sim.world Example.no_id Example.no_id (Sim.sim_ops 0 0) 6
                    (init Archives.deferral)
       = Ret (0, [], trace st' ++ map CallSymlink (symlinks st')).
Proof.
  assert (P : forall A B : Prop, A -> (A -> B) -> A /\ B) by tauto.
  eexists. apply P; [vm_compute; reflexivity|]. intros M.
  split; [reflexivity|].
  apply (drain_all_succeed _ _ _ _ _ _ _ _ M).
  cbn. eexists. split; [reflexivity|]. eexists. split; reflexivity.
Defined.

Lemma drain_first_failure_witness :
  exists st' node q2,
    main_loop Sim.world Example.no_id Example.no_id (Sim.sim_ops 0 (-3)) 6
              (init Archives.deferral) = Ret (0, st')
    /\ symlinks st' = [] ++ node :: q2
    /\ length q2 = 1%nat
    /\ extract_from Sim.world Example.no_id Example.no_id (Sim.sim_ops 0 (-3)) 6
                    (init Archives.deferral)
       = Ret (-3, [], trace st' ++ map CallSymlink ([] ++ [node])).
Proof.
  assert (P : forall A B : Prop, A -> (A -> B) -> A /\ B) by tauto.
  eexists _, _, _. apply P; [vm_compute; reflexivity|]. intros M.
  apply P; [vm_compute; reflexivity|]. intros Q.
  split; [reflexivity|].
  apply (drain_first_failure _ _ _ _ _ _ _ _ _ _ [] [] (-3) M Q);
    [reflexivity | reflexivity | discriminate].
Defined.

Lemma marker_sets_its_slot_witness :
  exists st2,
    loop_body Sim.world Example.no_id Example.no_id (Sim.sim_ops 0 0)
              Archives.long_marker
              (with_world (init Archives.long_name)
                          (Sim.full [Archives.long_payload; Archives.long_real])
                          CallRead)
    = Ret (Continue st2)
    /\ next_long_name st2 = Some (bytes "dir/x" ++ [NUL])
    /\ next_long_link st2 = None
    /\ trace st2 = [CallRead; CallRead].
Proof.
  edestruct (marker_sets_its_slot Sim.world Example.no_id Example.no_id
               (Sim.sim_ops 0 0) (init Archives.long_name)
               Archives.long_marker
               (Sim.full [Archives.long_payload; Archives.long_real])
               Archives.long_marker_entry
               (bytes "././@LongLink") [Archives.long_payload]
               (Sim.full [Archives.long_real]))
    as (st2 & B & _ & T & _ & N & _).
  - reflexivity.
  - vm_compute. reflexivity.
  - left. reflexivity.
  - vm_compute. reflexivity.
  - discriminate.
  - cbn [Size Archives.long_marker_entry]. lia.
  - reflexivity.
  - repeat constructor.
  - simpl. eexists. split; reflexivity.
  - exists st2. destruct (N eq_refl) as [N1 N2].
    split; [exact B|]. split; [rewrite N1; vm_compute; reflexivity|].
    split; [exact N2 | exact T].
Defined.

Lemma truncated_payload_fails_witness :
  TarExtractor Sim.world Example.no_id Example.no_id (Sim.sim_ops 0 0) 1
               [(512, Archives.long_marker); (100, [])]
  = Ret (-1, [], [CallRead; CallRead]).
Proof.
  refine (proj1 (truncated_payload_fails Sim.world Example.no_id Example.no_id
                   (Sim.sim_ops 0 0) 0%nat
                   (init [(512, Archives.long_marker); (100, [])])
                   Archives.long_marker [(100, [])]
                   Archives.long_marker_entry (bytes "././@LongLink")
                   [] [(100, [])] 100 [] [] _ _ _ _ _ _ _ _ _ _ _) _).
  - reflexivity.
  - vm_compute. reflexivity.
  - left. reflexivity.
  - vm_compute. reflexivity.
  - discriminate.
  - cbn [Size Archives.long_marker_entry]. lia.
  - vm_compute. lia.
  - constructor.
  - reflexivity.
  - reflexivity.
  - discriminate.
  - lia.
Defined.

Lemma op_success_continues_witness :
  main_loop Sim.world Example.no_id Example.no_id (Sim.sim_ops 0 0) 2
            (init (Sim.full [Archives.file_block]))
  = main_loop Sim.world Example.no_id Example.no_id (Sim.sim_ops 0 0) 1
              (mk_state None None [] []
                        ([] ++ [CallRead; CallExtract Archives.file_entry])).
Proof.
  refine (op_success_continues Sim.world Example.no_id Example.no_id
            (Sim.sim_ops 0 0) 1%nat (init (Sim.full [Archives.file_block]))
            Archives.file_block [] Archives.file_entry 1%nat
            (mk_state None None [] [] [CallRead])
            OpExtract Archives.file_entry [] _ _ _ _).
  - reflexivity.
  - vm_compute. reflexivity.
  - vm_compute. reflexivity.
  - reflexivity.
Defined.

(** * Octal fields written and read back *)

Lemma digit_of_val (d : Z) : byte_val (Example.digit_of d) = 48 + d mod 8.
Proof.
  unfold Example.digit_of, byte_val.
  pose proof (Z.mod_pos_bound d 8) as B.
  destruct (Byte.of_N (Z.to_N (48 + d mod 8))) as [c|] eqn:E.
  - apply Byte.to_of_N in E. rewrite E. rewrite Z2N.id; lia.
  - apply Byte.of_N_None_iff in E. lia.
Qed.

Lemma digit_of_odigit (d : Z) : is_odigit (Example.digit_of d) = true.
Proof.
  unfold is_odigit. rewrite digit_of_val.
  pose proof (Z.mod_pos_bound d 8) as B.
  apply andb_true_iff. split; apply Z.leb_le; lia.
Qed.

Lemma digit_of_not_space (d : Z) : is_space (Example.digit_of d) = false.
Proof.
  destruct (is_space (Example.digit_of d)) eqn:E; [|reflexivity].
  apply Byte.byte_dec_bl in E. pose proof (digit_of_val d) as V.
  rewrite E in V. pose proof (Z.mod_pos_bound d 8).
  change (byte_val SPACE) with 32 in V. lia.
Qed.

Lemma octal_Forall (k : nat) (n : Z) :
  Forall (fun c => is_odigit c = true) (Example.octal k n).
Proof.
  revert n. induction k as [|k IH]; intros n; simpl; [constructor|].
  apply Forall_app. split; [apply IH|].
  constructor; [apply digit_of_odigit | constructor].
Qed.

Lemma octal_length (k : nat) (n : Z) : length (Example.octal k n) = k.
Proof.
  revert n. induction k as [|k IH]; intros n; simpl; [reflexivity|].
  rewrite length_app, IH. simpl. lia.
Qed.

Lemma octal_number_octal (k : nat) (n : Z) :
  octal_number (Example.octal k n) = n mod 8 ^ Z.of_nat k.
Proof.
  revert n. induction k as [|k IH]; intros n.
  - simpl. rewrite Z.mod_1_r. reflexivity.
  - cbn [Example.octal]. unfold octal_number in *.
    rewrite fold_left_app. cbn [fold_left]. rewrite IH.
    unfold digit_val. rewrite digit_of_val.
    rewrite Nat2Z.inj_succ, Z.pow_succ_r by lia.
    rewrite Z.rem_mul_r by (try apply Z.pow_pos_nonneg; lia). lia.
Qed.

Lemma take_digits_all (ds : list byte) :
  Forall (fun c => is_odigit c = true) ds -> take_digits ds = ds.
Proof.
  induction 1 as [|c ds Hc _ IH]; simpl; [reflexivity|].
  rewrite Hc, IH. reflexivity.
Qed.

Lemma drop_spaces_pad (j : nat) (f : list byte) :
  drop_spaces (repeat SPACE j ++ f) = drop_spaces f.
Proof. induction j as [|j IH]; simpl; [reflexivity | exact IH]. Qed.

Lemma octal_head (k : nat) (n : Z) :
  exists c t, Example.octal (S k) n = c :: t /\ is_space c = false.
Proof.
  revert n. induction k as [|k IH]; intros n.
  - exists (Example.digit_of n), []. split; [reflexivity|].
    apply digit_of_not_space.
  - destruct (IH (n / 8)) as (c & t & E & HS).
    exists c, (t ++ [Example.digit_of n]).
    change (Example.octal (S (S k)) n)
      with (Example.octal (S k) (n / 8) ++ [Example.digit_of n]).
    rewrite E. split; [reflexivity | exact HS].
Qed.

(** X19.  [OtoL] reads back a number written in octal: for a field made
    of any count of spaces followed by the [k] octal digits of [n], with
    [k] from 1 to 10 and [n] below 8^k, it returns [n], whatever follows
    the field in memory, digits included. *)
Theorem OtoL_reads_octal (j k : nat) (n : Z) (rest : list byte) :
  (1 <= k <= 10)%nat -> 0 <= n < 8 ^ Z.of_nat k ->
  OtoL (repeat SPACE j ++ Example.octal k n ++ rest) (Z.of_nat (j + k))
  = Some n.
Proof.
  intros K B. destruct k as [|k]; [lia|].
  destruct (octal_head k n) as (c & t & E & HS).
  pose proof (OtoL_field (repeat SPACE j ++ Example.octal (S k) n) rest) as H.
  rewrite length_app, repeat_length, octal_length in H.
  rewrite <- app_assoc in H. rewrite H.
  - unfold field_digits. rewrite drop_spaces_pad.
    rewrite E. cbn [drop_spaces]. rewrite HS, <- E.
    rewrite take_digits_all by apply octal_Forall.
    rewrite octal_int_exact;
      [|apply octal_Forall | rewrite octal_length; lia].
    rewrite octal_number_octal. rewrite Z.mod_small by lia. reflexivity.
  - apply Exists_app. right. apply Exists_app. left.
    rewrite E. apply Exists_cons_hd. exact HS.
Qed.

Lemma OtoL_reads_octal_witness :
  OtoL (repeat SPACE 3 ++ Example.octal 4 493 ++ bytes "123") 7 = Some 493.
Proof.
  apply (OtoL_reads_octal 3 4 493 (bytes "123")); [lia | vm_compute; split; [discriminate | reflexivity]].
Defined.

Section DecoderTime.

Variable getpwnam : list byte -> option Z.
Variable getgrnam : list byte -> option Z.

(** X20.  The modification time of the decoded entry is the octal number
    of the 12-byte time field reduced to a 32-bit [int]: it is that number
    when the number is below 2^31, and it is negative when the number is
    from 2^31 to 2^32 - 1. *)
Theorem DecodeTarHeader_mtime (block : list byte) (d : TarInfo) (ok : bool) :
  DecodeTarHeader getpwnam getgrnam block = Some (d, ok) ->
  ModTime d = to_int (field_octal Off.ModificationTime 12 block)
  /\ (field_octal Off.ModificationTime 12 block < 2 ^ 31 ->
      ModTime d = field_octal Off.ModificationTime 12 block)
  /\ (2 ^ 31 <= field_octal Off.ModificationTime 12 block < 2 ^ 32 ->
      ModTime d = field_octal Off.ModificationTime 12 block - 2 ^ 32
      /\ ModTime d < 0).
Proof.
  intros H. pose proof (decode_length _ _ _ _ H) as HL.
  destruct (decode_fields _ _ _ _ _ H)
    as (passwd & group & mode & size & mtime & major & minor & uid & gid
        & _ & _ & _ & _ & Et & _ & _ & _ & _ & _ & _ & Dt & _).
  apply (OtoL_at_off Off.ModificationTime 12) in Et; [|rewrite HL; nat_cmp].
  rewrite octal_int_wrap in Et.
  fold (hfield Off.ModificationTime 12 block) in Et.
  fold (field_octal Off.ModificationTime 12 block) in Et.
  pose proof (octal_number_bound
                _ (take_digits_Forall
                     (drop_spaces (hfield Off.ModificationTime 12 block))))
    as [B _].
  fold (field_digits (hfield Off.ModificationTime 12 block)) in B.
  fold (field_octal Off.ModificationTime 12 block) in B.
  rewrite Dt, Et. split; [reflexivity|]. split; intros X.
  - apply to_int_small. lia.
  - unfold to_int.
    assert (E : (field_octal Off.ModificationTime 12 block + 2 ^ 31) mod 2 ^ 32
                = field_octal Off.ModificationTime 12 block + 2 ^ 31 - 2 ^ 32).
    { symmetry. apply (Z.mod_unique _ _ 1); lia. }
    rewrite E. lia.
Qed.

End DecoderTime.

Lemma DecodeTarHeader_mtime_witness :
  exists d ok,
    DecodeTarHeader Example.no_id Example.no_id More.late_block = Some (d, ok)
    /\ field_octal Off.ModificationTime 12 More.late_block = 2 ^ 31
    /\ ModTime d = - 2 ^ 31.
Proof.
  assert (P : forall A B : Prop, A -> (A -> B) -> A /\ B) by tauto.
  eexists _, _. apply P; [vm_compute; reflexivity|]. intros H.
  destruct (DecodeTarHeader_mtime _ _ _ _ _ H) as (_ & _ & C).
  split; [vm_compute; reflexivity|].
  destruct C as [C _]; [vm_compute; split; [discriminate | reflexivity]|].
  rewrite C. vm_compute. reflexivity.
Defined.
